(** * Trycycler: the command-line driver ([trycycler/__main__.py])

    A shallow embedding of the driver of Trycycler: argument
    post-processing, input validation, contig loading, the staged
    pipeline of [main] and FASTA output.

    The driver is effectful Python.  It is modelled in a small state and
    error monad [M] over a [World] that holds
    - the file system below the working directory (a tree of directories
      and regular files),
    - the state of Python's process-wide random generator,
    - the chronological trace of observable events (log lines, seeding,
      collaborator calls, directory creation, file writes).

    Functions the driver imports from other modules of the package
    ([misc], [settings], [starting_seq], [circularisation], ...) are
    collaborators: they are fields of the record [Collaborators] and every
    definition of the driver takes the record as its first argument.

    What the model leaves out: the text of the log lines (a log event
    records the call site and the values), the operating-system failures
    that do not depend on the shape of the file system (permissions, a full
    disk), special files and symbolic links. *)

From Stdlib Require Import ZArith.
From stdpp Require Import base option list strings gmap pretty.

#[local] Set Warnings "-clear-no-such-hyp".

(** ** Data *)

(** A [dict] from names to sequences.  Python dictionaries keep insertion
    order and [save_seqs_to_fasta] iterates in that order, so the model is
    an association list. *)
Definition ContigSet := list (string * string).

(** [d[k] = v]: an existing key keeps its position, a new key goes last. *)
Fixpoint dict_set (k v : string) (d : ContigSet) : ContigSet :=
  match d with
  | [] => [(k, v)]
  | (k', v') :: d' =>
      if decide (k' = k) then (k, v) :: d' else (k', v') :: dict_set k v d'
  end.

Definition dict_keys (d : ContigSet) : list string := d.*1.

(** A [pathlib.Path], as the list of its components below the working
    directory, outermost first; [[]] is the working directory itself. *)
Definition Path := list string.

(** [directory / name] *)
Definition path_join (d : Path) (name : string) : Path := d ++ [name].
Infix "//" := path_join (at level 40, left associativity).

(** [str(path)] *)
Definition path_str (p : Path) : string :=
  match p with
  | [] => "."
  | c :: cs => fold_left (λ acc x, acc +:+ "/" +:+ x) cs c
  end.

(** [string.ascii_uppercase] *)
Definition ascii_uppercase : string := "ABCDEFGHIJKLMNOPQRSTUVWXYZ".

(** ** The file system *)

#[warnings="-register-all"]
Inductive node :=
  | RegFile (content : string)
  | Directory (entries : gmap string node).

Inductive Exn :=
  | AssertionError
  | IndexError
  | FileExistsError
  | FileNotFoundError
  | NotADirectoryError
  | IsADirectoryError
  | OtherError (class_name : string).   (* raised inside a collaborator *)

Global Instance Exn_eq_dec : EqDecision Exn.
Proof. solve_decision. Defined.

(** Path resolution from the directory [n]: the node a path names, or the
    error the operating system reports. *)
Fixpoint stat (p : Path) (n : node) : Exn + node :=
  match p with
  | [] => inr n
  | c :: p' =>
      match n with
      | RegFile _ => inl NotADirectoryError
      | Directory es =>
          match es !! c with
          | None => inl FileNotFoundError
          | Some child => stat p' child
          end
      end
  end.

(** [Path.is_file()] and [Path.is_dir()]: resolution errors give [False]. *)
Definition path_is_file (p : Path) (root : node) : bool :=
  match stat p root with inr (RegFile _) => true | _ => false end.

Definition path_is_dir (p : Path) (root : node) : bool :=
  match stat p root with inr (Directory _) => true | _ => false end.

Definition path_exists (p : Path) (root : node) : bool :=
  match stat p root with inr _ => true | inl _ => false end.

(** A chain of fresh, empty directories along [p], ending in [leaf]. *)
Fixpoint fresh_chain (p : Path) (leaf : node) : node :=
  match p with
  | [] => leaf
  | c :: p' => Directory {[ c := fresh_chain p' leaf ]}
  end.

(** [Path.mkdir(parents=True)] (with the default [exist_ok=False]): the
    missing directories along the path are created; a regular file on the
    way is [NotADirectoryError]; a path that already exists is
    [FileExistsError]. *)
Fixpoint mkdir_parents (p : Path) (n : node) : Exn + node :=
  match p with
  | [] => inl FileExistsError
  | c :: p' =>
      match n with
      | RegFile _ => inl NotADirectoryError
      | Directory es =>
          match es !! c with
          | None => inr (Directory (<[c := fresh_chain p' (Directory ∅)]> es))
          | Some child =>
              match mkdir_parents p' child with
              | inl e => inl e
              | inr child' => inr (Directory (<[c := child']> es))
              end
          end
      end
  end.

(** The file at [p] gets the content [f old], where [old] is its present
    content, or [None] when the file is created.  This serves [open(p, 'wt')]
    ([f] constantly empty) and [write] on the open file ([f] appends). *)
Fixpoint update_file (f : option string → string) (p : Path) (n : node)
  : Exn + node :=
  match p with
  | [] =>
      match n with
      | RegFile old => inr (RegFile (f (Some old)))
      | Directory _ => inl IsADirectoryError
      end
  | c :: p' =>
      match n with
      | RegFile _ => inl NotADirectoryError
      | Directory es =>
          match es !! c with
          | Some child =>
              match update_file f p' child with
              | inl e => inl e
              | inr child' => inr (Directory (<[c := child']> es))
              end
          | None =>
              match p' with
              | [] => inr (Directory (<[c := RegFile (f None)]> es))
              | _ :: _ => inl FileNotFoundError
              end
          end
      end
  end.

(** ** Fatal errors, log lines, events *)

(** One constructor per [sys.exit] of the driver, with the values its
    f-string interpolates; [CollaboratorExit] is an exit made inside a
    collaborator (the argument parser or a pipeline stage). *)
Inductive Fatal :=
  | ReadsNotFastq (filename : string)
  | TooFewContigs
  | TooManyContigs (max : nat)
  | ContigNotFasta (f : string)
  | ContigNoSequences (f : string)
  | ContigMultipleSequences (f : string)
  | DuplicateContigName (contig_name : string)
  | OutDirIsFile (directory : Path)
  | CollaboratorExit (status : Z) (text : string).

(** The text [sys.exit] prints. *)
Definition message (e : Fatal) : string :=
  match e with
  | ReadsNotFastq filename =>
      "Error: input reads (" +:+ filename +:+ ") are not in FASTQ format"
  | TooFewContigs => "Error: two or more input contigs are required"
  | TooManyContigs max =>
      "Error: you cannot have more than " +:+ pretty max +:+ " input contigs"
  | ContigNotFasta f =>
      "Error: input contig file (" +:+ f +:+ ") is not in FASTA format"
  | ContigNoSequences f =>
      "Error: input contig file (" +:+ f +:+ ") contains no sequences"
  | ContigMultipleSequences f =>
      "Error: input contig file (" +:+ f +:+ ") contains multiple sequences"
  | DuplicateContigName contig_name =>
      "Error: duplicate contig name: " +:+ contig_name
  | OutDirIsFile directory =>
      "Error: output directory (" +:+ path_str directory
        +:+ ") already exists as a file"
  | CollaboratorExit _ text => text
  end.

(** The process exit status: [sys.exit] with a string argument exits
    with status 1. *)
Definition exit_status (e : Fatal) : Z :=
  match e with
  | CollaboratorExit status _ => status
  | _ => 1
  end.

(** The calls to [log], [section_header] and [explanation], by call site,
    with the values interpolated into the line. *)
Inductive LogMsg :=
  | LogSectionHeader (title : string)
  | LogExplanation (text : string)
  | LogInputReads (filename : string)
  | LogReadStats (read_count total_size : Z)
  | LogN50 (n50 : Z)
  | LogInputContigs
  | LogContig (letter f contig_name : string) (contig_len : nat)
  | LogOutDirExists (directory : Path)
  | LogCreatingOutDir (directory : Path)
  | LogSaving (filename : Path)
  | LogBlank.

(** The imported pipeline functions [main] calls. *)
Inductive Stage :=
  | InitialSanityCheck
  | GetStartingSeq
  | Circularise
  | RotateToStartingSeq
  | GetPerBaseScores
  | GetPairwiseAlignments
  | GetConsensusSeq.

Global Instance Stage_eq_dec : EqDecision Stage.
Proof. solve_decision. Defined.

Inductive Event :=
  | Seed (n : Z)                          (* random.seed(n) *)
  | Log (m : LogMsg)
  | Run (st : Stage) (seqs : ContigSet)   (* a stage called on [seqs] *)
  | Mkdir (directory : Path)
  | OpenWrite (filename : Path)           (* open(filename, 'wt') *)
  | Write (filename : Path) (text : string).

Definition is_stage_event (e : Event) : bool :=
  match e with Run _ _ => true | _ => false end.

(** Creation of, or a write to, an output file. *)
Definition is_output_event (e : Event) : bool :=
  match e with OpenWrite _ | Write _ _ => true | _ => false end.

Definition is_seed_event (e : Event) : bool :=
  match e with Seed _ => true | _ => false end.

(** ** The monad *)

Record World := mkWorld {
  fs : node;            (* the working directory *)
  rng : N;              (* state of the [random] module's generator *)
  trace : list Event    (* oldest event first *)
}.

Inductive Outcome (A : Type) :=
  | Ok (a : A)
  | Exit (e : Fatal)       (* SystemExit *)
  | Raise (e : Exn).       (* an uncaught exception *)
Arguments Ok {A} a.
Arguments Exit {A} e.
Arguments Raise {A} e.

Definition M (A : Type) : Type := World → Outcome A * World.

Definition ret {A} (a : A) : M A := λ w, (Ok a, w).

(** Sequencing: an exit or an exception ends the computation. *)
Definition bind {A B} (m : M A) (k : A → M B) : M B := λ w,
  match m w with
  | (Ok a, w') => k a w'
  | (Exit e, w') => (Exit e, w')
  | (Raise e, w') => (Raise e, w')
  end.

Declare Scope M_scope.
Delimit Scope M_scope with M.
Notation "x ← y ; z" := (bind y (λ x, z))
  (at level 20, y at level 100, z at level 200, only parsing) : M_scope.
Notation "x ;; z" := (bind x (λ _, z))
  (at level 100, z at level 200, only parsing, right associativity) : M_scope.
Local Open Scope M_scope.

Definition emit (e : Event) : M unit :=
  λ w, (Ok tt, mkWorld (fs w) (rng w) (trace w ++ [e])).

Definition log (m : LogMsg) : M unit := emit (Log m).

Definition sys_exit {A} (e : Fatal) : M A := λ w, (Exit e, w).

Definition raise {A} (e : Exn) : M A := λ w, (Raise e, w).

(** Reading the file system. *)
Definition is_file (p : Path) : M bool := λ w, (Ok (path_is_file p (fs w)), w).
Definition is_dir (p : Path) : M bool := λ w, (Ok (path_is_dir p (fs w)), w).

(** A file-system operation, recorded in the trace when it succeeds. *)
Definition fs_op (op : node → Exn + node) (e : Event) : M unit :=
  λ w, match op (fs w) with
       | inl x => (Raise x, w)
       | inr root' => (Ok tt, mkWorld root' (rng w) (trace w ++ [e]))
       end.

Definition mkdir (p : Path) : M unit := fs_op (mkdir_parents p) (Mkdir p).

Definition open_wt (p : Path) : M unit :=
  fs_op (update_file (λ _, "") p) (OpenWrite p).

Definition file_write (p : Path) (text : string) : M unit :=
  fs_op (update_file (λ old, default "" old +:+ text) p) (Write p text).

(** A collaborator that computes a value: it may consume random numbers
    and may fail; it returns a new value rather than changing its
    arguments in place, and it does not touch the driver's output
    directory. *)
Definition Ext (A : Type) : Type := N → Outcome A * N.

(** The call of stage [st] on the contig set [seqs]. *)
Definition call {A} (st : Stage) (seqs : ContigSet) (body : Ext A) : M A :=
  λ w, let '(o, r) := body (rng w) in
       (o, mkWorld (fs w) r (trace w ++ [Run st seqs])).

(** ** Collaborators *)

(** The namespace [parser.parse_args] returns. *)
Record Namespace := mkNamespace {
  ns_contigs : list string;
  ns_reads : string;
  ns_out_dir : Path;
  ns_threads : Z;
  ns_not_circular : bool
}.

(** The namespace [get_arguments] returns: the attribute [circular] is
    added. *)
Record Args := mkArgs {
  contigs : list string;
  reads : string;
  out_dir : Path;
  threads : Z;
  not_circular : bool;
  circular : bool
}.

Record Collaborators := mkCollaborators {
  StartingSeq : Type;
  Scores : Type;
  Alignments : Type;
  (* argparse: the namespace, or the exit the parser makes
     (--help, --version, a usage error) *)
  parse_args : list string → Fatal + Namespace;
  (* random: the generator state [random.seed(n)] installs *)
  seed_state : Z → N;
  (* settings *)
  MAX_INPUT_CONTIGS : nat;
  (* misc: the input files are only read, so what these return is a
     function of the file name *)
  get_sequence_file_type : string → string;
  load_fasta : string → list (string * string);
  get_fastq_stats : string → Z * Z * Z;
  (* the pipeline *)
  initial_sanity_check : ContigSet → Ext unit;
  get_starting_seq : ContigSet → Z → Ext (StartingSeq * ContigSet);
  circularise : ContigSet → string → Z → Ext ContigSet;
  rotate_to_starting_seq : ContigSet → StartingSeq → Ext ContigSet;
  get_per_base_scores : ContigSet → string → bool → Ext Scores;
  get_pairwise_alignments : ContigSet → Ext Alignments;
  get_consensus_seq : ContigSet → Scores → Alignments → Ext ContigSet
}.

(** ** The driver *)

(** [if b: m] *)
Definition when (b : bool) (m : M unit) : M unit := if b then m else ret tt.

(** [assert b] *)
Definition assert (b : bool) : M unit := if b then ret tt else raise AssertionError.

(** [l[i]] *)
Definition list_item {A} (l : list A) (i : nat) : M A :=
  match l !! i with
  | Some x => ret x
  | None => raise IndexError
  end.

(** [string.ascii_uppercase[i]] *)
Definition ascii_uppercase_at (i : nat) : M string :=
  match String.get i ascii_uppercase with
  | Some a => ret (String a EmptyString)
  | None => raise IndexError
  end.

Definition newline : string := String (Ascii.ascii_of_nat 10) EmptyString.

Definition welcome_message : M unit :=
  log (LogSectionHeader "Starting Trycycler");;
  log (LogExplanation
         ("Trycycler is a tool for combining multiple genome assemblies from the same "
          +:+ "long-read set (e.g. assemblies from different assemblers) into a consensus "
          +:+ "assembly that takes the best parts of each.")).

Definition check_output_directory (directory : Path) : M unit :=
  b ← is_file directory;
  when b (sys_exit (OutDirIsFile directory));;
  d ← is_dir directory;
  (if d then log (LogOutDirExists directory)
   else log (LogCreatingOutDir directory);; mkdir directory);;
  log LogBlank.

Definition check_required_software : M unit := ret tt.

(** The loop of [save_seqs_to_fasta] over [seqs.items()]. *)
Fixpoint save_seqs_to_fasta_loop (fasta : Path) (items : ContigSet) : M unit :=
  match items with
  | [] => ret tt
  | (name, seq) :: rest =>
      file_write fasta (">" +:+ name +:+ newline);;
      file_write fasta (seq +:+ newline);;
      save_seqs_to_fasta_loop fasta rest
  end.

Definition save_seqs_to_fasta (seqs : ContigSet) (filename : Path) : M unit :=
  log (LogSaving filename);;
  open_wt filename;;
  save_seqs_to_fasta_loop filename seqs;;
  log LogBlank.

(** [args.circular = not args.not_circular]: the namespace with the
    attribute [circular] added. *)
Definition args_of (ns : Namespace) : Args :=
  mkArgs (ns_contigs ns) (ns_reads ns) (ns_out_dir ns) (ns_threads ns)
    (ns_not_circular ns) (negb (ns_not_circular ns)).

Section Driver.
Context (c : Collaborators).

(** [parse_args] and the one line of [get_arguments] after it. *)
Definition get_arguments (argv : list string) : M Args :=
  match parse_args c argv with
  | inl e => sys_exit e
  | inr ns => ret (args_of ns)
  end.

(** [random.seed(n)] *)
Definition random_seed (n : Z) : M unit :=
  λ w, (Ok tt, mkWorld (fs w) (seed_state c n) (trace w ++ [Seed n])).

Definition check_input_reads (filename : string) : M unit :=
  let read_type := get_sequence_file_type c filename in
  when (bool_decide (read_type ≠ "FASTQ")) (sys_exit (ReadsNotFastq filename));;
  log (LogInputReads filename);;
  let '(read_count, total_size, n50) := get_fastq_stats c filename in
  log (LogReadStats read_count total_size);;
  log (LogN50 n50);;
  log LogBlank.

(** The loop of [check_input_contigs], from index [i] on. *)
Fixpoint check_input_contigs_loop (i : nat) (filenames : list string)
    (contig_names : gset string) : M unit :=
  match filenames with
  | [] => ret tt
  | f :: rest =>
      let contig_type := get_sequence_file_type c f in
      when (bool_decide (contig_type ≠ "FASTA")) (sys_exit (ContigNotFasta f));;
      let seqs := load_fasta c f in
      when (bool_decide (length seqs = 0)) (sys_exit (ContigNoSequences f));;
      when (bool_decide (1 < length seqs)) (sys_exit (ContigMultipleSequences f));;
      seqs_0 ← list_item seqs 0;
      let contig_name := seqs_0.1 in
      when (bool_decide (contig_name ∈ contig_names))
        (sys_exit (DuplicateContigName contig_name));;
      let contig_names := contig_names ∪ {[ contig_name ]} in
      let contig_len := String.length seqs_0.2 in
      letter ← ascii_uppercase_at i;
      log (LogContig letter f contig_name contig_len);;
      check_input_contigs_loop (S i) rest contig_names
  end.

Definition check_input_contigs (filenames : list string) : M unit :=
  when (bool_decide (length filenames < 2)) (sys_exit TooFewContigs);;
  when (bool_decide (MAX_INPUT_CONTIGS c < length filenames))
    (sys_exit (TooManyContigs (MAX_INPUT_CONTIGS c)));;
  log LogInputContigs;;
  check_input_contigs_loop 0 filenames ∅;;
  log LogBlank.

Definition check_inputs_and_requirements (args : Args) : M unit :=
  check_input_reads (reads args);;
  check_input_contigs (contigs args);;
  check_output_directory (out_dir args);;
  check_required_software.

(** The loop of [load_contig_sequences], from index [i] on. *)
Fixpoint load_contig_sequences_loop (i : nat) (filenames : list string)
    (contig_seqs : ContigSet) : M ContigSet :=
  match filenames with
  | [] => ret contig_seqs
  | f :: rest =>
      letter ← ascii_uppercase_at i;
      let seqs := load_fasta c f in
      assert (bool_decide (length seqs = 1));;
      seqs_0 ← list_item seqs 0;
      load_contig_sequences_loop (S i) rest (dict_set letter seqs_0.2 contig_seqs)
  end.

Definition load_contig_sequences (filenames : list string) : M ContigSet :=
  load_contig_sequences_loop 0 filenames [].

Definition main (argv : list string) : M unit :=
  args ← get_arguments argv;
  random_seed 0;;
  welcome_message;;
  check_inputs_and_requirements args;;
  seqs ← load_contig_sequences (contigs args);
  call InitialSanityCheck seqs (initial_sanity_check c seqs);;
  r ← call GetStartingSeq seqs (get_starting_seq c seqs (threads args));
  let starting_seq := r.1 in
  let seqs := r.2 in
  seqs ← (if circular args then
            seqs ← call Circularise seqs
                     (circularise c seqs (reads args) (threads args));
            call RotateToStartingSeq seqs
              (rotate_to_starting_seq c seqs starting_seq)
          else ret seqs);
  save_seqs_to_fasta seqs (out_dir args // "01_all_seqs.fasta");;
  per_base_scores ← call GetPerBaseScores seqs
                      (get_per_base_scores c seqs (reads args) (circular args));
  pairwise_alignments ← call GetPairwiseAlignments seqs
                          (get_pairwise_alignments c seqs);
  consensus_seq ← call GetConsensusSeq seqs
                    (get_consensus_seq c seqs per_base_scores pairwise_alignments);
  save_seqs_to_fasta consensus_seq (out_dir args // "02_consensus.fasta").

End Driver.

(** ** Reference definitions used in the statements *)

(** The label of the [i]-th input file. *)
Definition letter (i : nat) : string :=
  String (Ascii.ascii_of_nat (65 + i)) EmptyString.

(** The contig set [load_contig_sequences] builds from index [i] on: the
    letter of each position with the sequence of the first record of the
    file at that position. *)
Fixpoint labelled (c : Collaborators) (i : nat) (filenames : list string)
  : ContigSet :=
  match filenames with
  | [] => []
  | f :: rest =>
      (letter i, (default ("", "") (head (load_fasta c f))).2)
        :: labelled c (S i) rest
  end.

(** A FASTA record as the spec words it: the header line [>name], then the
    whole sequence on one line. *)
Definition fasta_record (name seq : string) : string :=
  ">" +:+ name +:+ newline +:+ seq +:+ newline.

Fixpoint fasta_text (seqs : ContigSet) : string :=
  match seqs with
  | [] => ""
  | (name, seq) :: rest => fasta_record name seq +:+ fasta_text rest
  end.

(** The texts [save_seqs_to_fasta] passes to [write], in order. *)
Definition fasta_writes (seqs : ContigSet) : list string :=
  flat_map (λ '(name, seq), [">" +:+ name +:+ newline; seq +:+ newline]) seqs.

(** The lines of a text: the pieces that end in a line feed (a last piece
    without one is kept too). *)
Fixpoint lines_from (cur : string) (s : string) : list string :=
  match s with
  | EmptyString => if decide (cur = "") then [] else [cur]
  | String a s' =>
      if decide (a = Ascii.ascii_of_nat 10) then cur :: lines_from "" s'
      else lines_from (cur +:+ String a EmptyString) s'
  end.

Definition lines (s : string) : list string := lines_from "" s.

Fixpoint has_newline (s : string) : bool :=
  match s with
  | EmptyString => false
  | String a s' => bool_decide (a = Ascii.ascii_of_nat 10) || has_newline s'
  end.

(** The first record name of every input file, in input order. *)
Definition first_names (c : Collaborators) (filenames : list string)
  : list string :=
  (λ f, (default ("", "") (head (load_fasta c f))).1) <$> filenames.

(** All record names of all input files, in input order. *)
Definition record_names (c : Collaborators) (filenames : list string)
  : list string :=
  flat_map (λ f, (load_fasta c f).*1) filenames.

(** An input contig file that passes the three per-file checks. *)
Definition single_fasta (c : Collaborators) (f : string) : Prop :=
  get_sequence_file_type c f = "FASTA" ∧ length (load_fasta c f) = 1.

(** The world after [ms] was logged. *)
Definition add_logs (ms : list LogMsg) (w : World) : World :=
  mkWorld (fs w) (rng w) (trace w ++ (Log <$> ms)).

(** [m] touches nothing but the log: on every world it has the outcome [o]
    and logs [ms]. *)
Definition quiet {A} (m : M A) (o : Outcome A) (ms : list LogMsg) : Prop :=
  ∀ w, m w = (o, add_logs ms w).

(** Every event [m] adds to the trace satisfies [P]. *)
Definition emits {A} (P : Event → Prop) (m : M A) : Prop :=
  ∀ w, ∃ evs, trace (m w).2 = trace w ++ evs ∧ Forall P evs.

(** The events of a successful [save_seqs_to_fasta]. *)
Definition save_events (seqs : ContigSet) (filename : Path) : list Event :=
  [Log (LogSaving filename); OpenWrite filename]
    ++ (Write filename <$> fasta_writes seqs) ++ [Log LogBlank].

(** The outcome of the loop of [check_input_contigs] from index [i] on, as
    a relation: the first file that fails a check decides. *)
Inductive loop_outcome (c : Collaborators)
  : nat → list string → gset string → Outcome unit → Prop :=
  | loop_done i names :
      loop_outcome c i [] names (Ok tt)
  | loop_not_fasta i f rest names :
      get_sequence_file_type c f ≠ "FASTA" →
      loop_outcome c i (f :: rest) names (Exit (ContigNotFasta f))
  | loop_no_sequences i f rest names :
      get_sequence_file_type c f = "FASTA" →
      load_fasta c f = [] →
      loop_outcome c i (f :: rest) names (Exit (ContigNoSequences f))
  | loop_multiple i f rest names :
      get_sequence_file_type c f = "FASTA" →
      1 < length (load_fasta c f) →
      loop_outcome c i (f :: rest) names (Exit (ContigMultipleSequences f))
  | loop_duplicate i f rest names r :
      get_sequence_file_type c f = "FASTA" →
      load_fasta c f = [r] →
      r.1 ∈ names →
      loop_outcome c i (f :: rest) names (Exit (DuplicateContigName r.1))
  | loop_index i f rest names r :
      get_sequence_file_type c f = "FASTA" →
      load_fasta c f = [r] →
      r.1 ∉ names →
      26 ≤ i →
      loop_outcome c i (f :: rest) names (Raise IndexError)
  | loop_next i f rest names r o :
      get_sequence_file_type c f = "FASTA" →
      load_fasta c f = [r] →
      r.1 ∉ names →
      i < 26 →
      loop_outcome c (S i) rest (names ∪ {[ r.1 ]}) o →
      loop_outcome c i (f :: rest) names o.

(** [main] after [get_arguments], cut in two at the first write: all that
    leads to the normalised contig set, and all that follows.  Lemma
    [main_phases] shows that [main] is the one followed by the other. *)
Definition normalise_phase (c : Collaborators) (args : Args) : M ContigSet :=
  random_seed c 0;;
  welcome_message;;
  check_inputs_and_requirements c args;;
  seqs ← load_contig_sequences c (contigs args);
  call InitialSanityCheck seqs (initial_sanity_check c seqs);;
  r ← call GetStartingSeq seqs (get_starting_seq c seqs (threads args));
  let starting_seq := r.1 in
  let seqs := r.2 in
  if circular args then
    seqs ← call Circularise seqs (circularise c seqs (reads args) (threads args));
    call RotateToStartingSeq seqs (rotate_to_starting_seq c seqs starting_seq)
  else ret seqs.

Definition output_phase (c : Collaborators) (args : Args) (seqs : ContigSet)
  : M unit :=
  save_seqs_to_fasta seqs (out_dir args // "01_all_seqs.fasta");;
  per_base_scores ← call GetPerBaseScores seqs
                      (get_per_base_scores c seqs (reads args) (circular args));
  pairwise_alignments ← call GetPairwiseAlignments seqs
                          (get_pairwise_alignments c seqs);
  consensus_seq ← call GetConsensusSeq seqs
                    (get_consensus_seq c seqs per_base_scores pairwise_alignments);
  save_seqs_to_fasta consensus_seq (out_dir args // "02_consensus.fasta").

(** The world right after [random.seed(0)]. *)
Definition seeded (c : Collaborators) (w : World) : World :=
  mkWorld (fs w) (seed_state c 0) (trace w ++ [Seed 0]).



(** [e] is the error of the first per-file check of [check_input_contigs]
    that the file [f] fails, [seen] being the record names of the files
    before it: the format, then no record, then more than one record, then
    the name of the record. *)
Definition failed_file_check (c : Collaborators) (seen : list string)
    (f : string) (e : Fatal) : Prop :=
  (get_sequence_file_type c f ≠ "FASTA" ∧ e = ContigNotFasta f)
  ∨ (get_sequence_file_type c f = "FASTA" ∧ length (load_fasta c f) = 0
     ∧ e = ContigNoSequences f)
  ∨ (get_sequence_file_type c f = "FASTA" ∧ 1 < length (load_fasta c f)
     ∧ e = ContigMultipleSequences f)
  ∨ (get_sequence_file_type c f = "FASTA"
     ∧ ∃ r, load_fasta c f = [r] ∧ r.1 ∈ seen
            ∧ e = DuplicateContigName r.1).

(** [e] is the error of the first check of the validation that fails on
    the reads file and the contig files: the format of the reads, then the
    number of contig files, then the contig files in input order, the
    first of them that fails a check ([f], after the good files [pre] with
    distinct record names) with the check it fails. *)
Definition first_failed_check (c : Collaborators) (reads_file : string)
    (filenames : list string) (e : Fatal) : Prop :=
  (get_sequence_file_type c reads_file ≠ "FASTQ"
   ∧ e = ReadsNotFastq reads_file)
  ∨ (get_sequence_file_type c reads_file = "FASTQ"
     ∧ ((length filenames < 2 ∧ e = TooFewContigs)
        ∨ (2 ≤ length filenames ∧ MAX_INPUT_CONTIGS c < length filenames
           ∧ e = TooManyContigs (MAX_INPUT_CONTIGS c))
        ∨ (2 ≤ length filenames ∧ length filenames ≤ MAX_INPUT_CONTIGS c
           ∧ ∃ pre f post,
               filenames = pre ++ f :: post
               ∧ Forall (single_fasta c) pre
               ∧ NoDup (first_names c pre)
               ∧ failed_file_check c (first_names c pre) f e))).

(** [main] stops with the fatal error [e] during validation: the exit
    status is 1, the file system is as it was, and nothing but the seeding
    and log lines happened: no stage ran, no output file was opened or
    written. *)
Definition aborts_in_validation (c : Collaborators) (argv : list string)
    (w : World) (e : Fatal) : Prop :=
  ∃ w', main c argv w = (Exit e, w')
        ∧ exit_status e = 1%Z
        ∧ fs w' = fs w
        ∧ ∃ evs, trace w' = trace w ++ evs
                 ∧ Forall (λ ev, is_stage_event ev = false
                                 ∧ is_output_event ev = false) evs.

(** ** Sample collaborators

    Concrete collaborators for the examples: the parser returns [ns], a file
    is FASTQ when it is named [reads.fastq] and FASTA otherwise, [files]
    gives the records of each file, and the stages return their input. *)
Definition sample (ns : Namespace) (max : nat)
    (files : string → list (string * string)) : Collaborators := {|
  StartingSeq := string;
  Scores := unit;
  Alignments := unit;
  parse_args := λ _, inr ns;
  seed_state := λ z, Z.to_N z;
  MAX_INPUT_CONTIGS := max;
  get_sequence_file_type :=
    λ f, if decide (f = "reads.fastq") then "FASTQ" else "FASTA";
  load_fasta := files;
  get_fastq_stats := λ _, (2, 8, 4)%Z;
  initial_sanity_check := λ _ r, (Ok tt, r);
  get_starting_seq := λ seqs _ r, (Ok ("ACGT", seqs), r);
  circularise := λ seqs _ _ r, (Ok seqs, r);
  rotate_to_starting_seq := λ seqs _ r, (Ok seqs, r);
  get_per_base_scores := λ _ _ _ r, (Ok tt, r);
  get_pairwise_alignments := λ _ r, (Ok tt, r);
  get_consensus_seq := λ _ _ _ r, (Ok [("consensus", "ACGT")], r)
|}.

(** Every file holds one record, named after the file. *)
Definition one_record_each (f : string) : list (string * string) :=
  [("contig_" +:+ f, "ACGT")].

(** An empty working directory, an unseeded generator, an empty trace. *)
Definition empty_world : World := mkWorld (Directory ∅) 5 [].

(** One contig file, and reads in FASTQ format. *)
Definition one_contig_ns : Namespace :=
  mkNamespace ["a.fasta"] "reads.fastq" ["out"] 4 false.

Definition one_contig_run : Collaborators :=
  sample one_contig_ns 26 one_record_each.

(** One contig file, and reads that are not in FASTQ format. *)
Definition one_contig_bad_reads : Collaborators :=
  sample (mkNamespace ["a.fasta"] "reads.txt" ["out"] 4 false) 26
    one_record_each.

(** Three contig files: the first and the third hold a record named [x],
    the second holds two records. *)
Definition repeated_name_files (f : string) : list (string * string) :=
  if decide (f = "b.fasta") then [("y", "ACGT"); ("z", "ACGT")]
  else [("x", "ACGT")].

Definition repeated_name_run : Collaborators :=
  sample (mkNamespace ["a.fasta"; "b.fasta"; "c.fasta"] "reads.fastq" ["out"]
            4 false) 26 repeated_name_files.


(** Two contig files with one record each under distinct names. *)
Definition two_contigs (not_circular : bool) : Collaborators :=
  sample (mkNamespace ["a.fasta"; "b.fasta"] "reads.fastq" ["out"] 4
            not_circular) 26 one_record_each.

(** Two contig files with the same record name. *)
Definition same_name_run : Collaborators :=
  sample (mkNamespace ["a.fasta"; "b.fasta"] "reads.fastq" ["out"] 4 false) 26
    (λ _, [("x", "ACGT")]).

(** The second contig file holds two records. *)
Definition second_file_bad_run : Collaborators :=
  sample (mkNamespace ["a.fasta"; "b.fasta"] "reads.fastq" ["out"] 4 false) 26
    repeated_name_files.



(** A working directory in which [a] is a regular file. *)
Definition world_with_file : World :=
  mkWorld (Directory {[ "a" := RegFile "text" ]}) 5 [].

(** The stages called in a trace, in order. *)
Definition stage_calls (t : list Event) : list Stage :=
  omap (λ e, match e with Run st _ => Some st | _ => None end) t.

(** ** Definitions for the further properties *)

(** The log lines of the loop of [check_input_contigs] from index [i] on,
    when every file passes: one line per file with its letter, its name,
    the name of its record and the length of its sequence. *)
Fixpoint contig_lines (c : Collaborators) (i : nat) (filenames : list string)
  : list LogMsg :=
  match filenames with
  | [] => []
  | f :: rest =>
      let r := default ("", "") (head (load_fasta c f)) in
      LogContig (letter i) f r.1 (String.length r.2)
        :: contig_lines c (S i) rest
  end.

(** The stages [main] calls, in the order of its text. *)
Definition pipeline_stages (circular : bool) : list Stage :=
  [InitialSanityCheck; GetStartingSeq]
    ++ (if circular then [Circularise; RotateToStartingSeq] else [])
    ++ [GetPerBaseScores; GetPairwiseAlignments; GetConsensusSeq].

(** [m] calls the stages [l] in order: every run calls a prefix of [l],
    and a run that returns has called all of [l]. *)
Definition calls_stages {A} (l : list Stage) (m : M A) : Prop :=
  ∀ w, ∃ evs,
    trace (m w).2 = trace w ++ evs
    ∧ stage_calls evs `prefix_of` l
    ∧ ∀ a, (m w).1 = Ok a → stage_calls evs = l.

(** The stage [st] returns a value on the contig set [seqs]: called as
    [main] calls it, with the reads, the thread count and the flag of
    [args], it returns for some state of the generator (and, for
    [rotate_to_starting_seq] and [get_consensus_seq], for some value of the
    results of earlier stages that they are passed). *)
Definition stage_returns (c : Collaborators) (args : Args) (st : Stage)
    (seqs : ContigSet) : Prop :=
  match st with
  | InitialSanityCheck =>
      ∃ r a r', initial_sanity_check c seqs r = (Ok a, r')
  | GetStartingSeq =>
      ∃ r a r', get_starting_seq c seqs (threads args) r = (Ok a, r')
  | Circularise =>
      ∃ r a r', circularise c seqs (reads args) (threads args) r = (Ok a, r')
  | RotateToStartingSeq =>
      ∃ ss r a r', rotate_to_starting_seq c seqs ss r = (Ok a, r')
  | GetPerBaseScores =>
      ∃ r a r',
        get_per_base_scores c seqs (reads args) (circular args) r = (Ok a, r')
  | GetPairwiseAlignments =>
      ∃ r a r', get_pairwise_alignments c seqs r = (Ok a, r')
  | GetConsensusSeq =>
      ∃ sc al r a r', get_consensus_seq c seqs sc al r = (Ok a, r')
  end.

(** The stage calls of [m] stop at a failure: whenever a stage call is
    followed by another event, or [m] returns, the stage had returned a
    value on the contig set it was called on. *)
Definition stops_at_failure {A} (c : Collaborators) (args : Args) (m : M A)
  : Prop :=
  ∀ w, ∃ evs,
    trace (m w).2 = trace w ++ evs
    ∧ ∀ evs1 st seqs evs2,
        evs = evs1 ++ Run st seqs :: evs2 →
        evs2 ≠ [] ∨ (∃ a, (m w).1 = Ok a) →
        stage_returns c args st seqs.

(** Names and sequences are free of line feeds. *)
Definition no_newlines (seqs : ContigSet) : Prop :=
  Forall (λ '(name, seq), has_newline name = false ∧ has_newline seq = false)
    seqs.

(** [n] contig files, [contig0.fasta], [contig1.fasta], ... *)
Definition numbered_files (n : nat) : list string :=
  (λ i, "contig" +:+ pretty i +:+ ".fasta") <$> seq 0 n.

(** 27 good contig files under a ceiling of 30. *)
Definition many_files_run : Collaborators :=
  sample (mkNamespace (numbered_files 27) "reads.fastq" ["out"] 4 false) 30
    one_record_each.

(** Two good contig files and a [circularise] that exits. *)
Definition failing_stage_run : Collaborators := {|
  StartingSeq := string;
  Scores := unit;
  Alignments := unit;
  parse_args :=
    λ _, inr (mkNamespace ["a.fasta"; "b.fasta"] "reads.fastq" ["out"] 4 false);
  seed_state := λ z, Z.to_N z;
  MAX_INPUT_CONTIGS := 26;
  get_sequence_file_type :=
    λ f, if decide (f = "reads.fastq") then "FASTQ" else "FASTA";
  load_fasta := one_record_each;
  get_fastq_stats := λ _, (2, 8, 4)%Z;
  initial_sanity_check := λ _ r, (Ok tt, r);
  get_starting_seq := λ seqs _ r, (Ok ("ACGT", seqs), r);
  circularise :=
    λ _ _ _ r, (Exit (CollaboratorExit 1 "Error: failed to circularise"), r);
  rotate_to_starting_seq := λ seqs _ r, (Ok seqs, r);
  get_per_base_scores := λ _ _ _ r, (Ok tt, r);
  get_pairwise_alignments := λ _ r, (Ok tt, r);
  get_consensus_seq := λ _ _ _ r, (Ok [("consensus", "ACGT")], r)
|}.

(** * Lemmas *)

(** ** Strings and letters *)

Lemma string_app_assoc (s1 s2 s3 : string) :
  s1 +:+ s2 +:+ s3 = (s1 +:+ s2) +:+ s3.
Proof.
  induction s1 as [|a s1 IH]; [reflexivity|].
  change (String a (s1 +:+ s2 +:+ s3) = String a ((s1 +:+ s2) +:+ s3)).
  by rewrite IH.
Qed.

Lemma string_app_nil_r (s : string) : s +:+ "" = s.
Proof.
  induction s as [|a s IH]; [done|].
  change (String a (s +:+ "") = String a s). by rewrite IH.
Qed.

Lemma has_newline_app (s t : string) :
  has_newline (s +:+ t) = has_newline s || has_newline t.
Proof.
  induction s as [|a s IH]; [done|].
  change (has_newline (String a (s +:+ t))
          = has_newline (String a s) || has_newline t).
  simpl. by rewrite IH, orb_assoc.
Qed.

(** A text without line feed, followed by a line feed, is one line. *)
Lemma lines_from_line (cur t rest : string) :
  has_newline t = false →
  lines_from cur (t +:+ newline +:+ rest) = (cur +:+ t) :: lines_from "" rest.
Proof.
  revert cur. induction t as [|a t IH]; intros cur Ht.
  - change (lines_from cur (String (Ascii.ascii_of_nat 10) rest)
            = (cur +:+ "") :: lines_from "" rest).
    simpl. by rewrite string_app_nil_r.
  - simpl in Ht. apply orb_false_iff in Ht as [Ha Ht].
    apply bool_decide_eq_false in Ha.
    change (lines_from cur (String a (t +:+ newline +:+ rest))
            = (cur +:+ String a t) :: lines_from "" rest).
    simpl. destruct (decide (a = Ascii.ascii_of_nat 10)); [done|].
    rewrite IH by done. by rewrite <- string_app_assoc.
Qed.

Lemma lines_fasta_text (seqs : ContigSet) :
  Forall (λ '(name, seq), has_newline name = false ∧ has_newline seq = false)
    seqs →
  lines (fasta_text seqs)
  = flat_map (λ '(name, seq), [">" +:+ name; seq]) seqs.
Proof.
  unfold lines. induction seqs as [|[name seq] rest IH]; intros Hs; [done|].
  apply Forall_cons in Hs as [[Hn Hq] Hs].
  change (fasta_text ((name, seq) :: rest))
    with (fasta_record name seq +:+ fasta_text rest).
  unfold fasta_record. rewrite <- !string_app_assoc.
  rewrite (string_app_assoc ">" name).
  rewrite lines_from_line by (by rewrite has_newline_app, Hn).
  rewrite lines_from_line by done. rewrite IH by done. reflexivity.
Qed.

Lemma ascii_uppercase_get (i : nat) :
  i < 26 → String.get i ascii_uppercase = Some (Ascii.ascii_of_nat (65 + i)).
Proof.
  intros Hi. do 26 (destruct i as [|i]; [reflexivity|]). lia.
Qed.

Lemma ascii_uppercase_get_None (i : nat) :
  26 ≤ i → String.get i ascii_uppercase = None.
Proof.
  intros Hi. do 26 (destruct i as [|i]; [lia|]). reflexivity.
Qed.

Lemma ascii_uppercase_at_lt (i : nat) (w : World) :
  i < 26 → ascii_uppercase_at i w = (Ok (letter i), w).
Proof.
  intros Hi. unfold ascii_uppercase_at. by rewrite ascii_uppercase_get.
Qed.

Lemma ascii_uppercase_at_ge (i : nat) (w : World) :
  26 ≤ i → ascii_uppercase_at i w = (Raise IndexError, w).
Proof.
  intros Hi. unfold ascii_uppercase_at. by rewrite ascii_uppercase_get_None.
Qed.

Lemma letter_inj (i j : nat) : i < 26 → j < 26 → letter i = letter j → i = j.
Proof.
  unfold letter. intros Hi Hj [= H].
  apply (f_equal Ascii.nat_of_ascii) in H.
  rewrite !Ascii.nat_ascii_embedding in H by lia. lia.
Qed.

(** ** The file system *)

Lemma stat_error (p : Path) (n : node) (e : Exn) :
  stat p n = inl e → e = FileNotFoundError ∨ e = NotADirectoryError.
Proof.
  revert n. induction p as [|x p IH]; intros n H; simpl in H; [done|].
  destruct n as [s|es]; [naive_solver|].
  destruct (es !! x) as [child|]; [eauto|naive_solver].
Qed.

Lemma fresh_chain_dir (p q : Path) :
  q `prefix_of` p → path_is_dir q (fresh_chain p (Directory ∅)) = true.
Proof.
  revert q. induction p as [|x p IH]; intros q Hq.
  - apply prefix_nil_inv in Hq as ->. done.
  - destruct q as [|y q]; [done|].
    apply prefix_cons_inv_1 in Hq as Hxy. subst y.
    apply prefix_cons_inv_2 in Hq. specialize (IH q Hq).
    unfold path_is_dir in *. simpl. by rewrite lookup_singleton_eq.
Qed.

(** [mkdir(parents=True)] succeeds exactly when resolution stops at a
    missing entry. *)
Lemma mkdir_parents_missing (p : Path) (n : node) :
  stat p n = inl FileNotFoundError → ∃ n', mkdir_parents p n = inr n'.
Proof.
  revert n. induction p as [|x p IH]; intros n H; simpl in *; [done|].
  destruct n as [s|es]; [done|].
  destruct (es !! x) as [child|]; [|eauto].
  destruct (IH child H) as [child' ->]. eauto.
Qed.

Lemma mkdir_parents_blocked (p : Path) (n : node) :
  stat p n = inl NotADirectoryError →
  mkdir_parents p n = inl NotADirectoryError.
Proof.
  revert n. induction p as [|x p IH]; intros n H; simpl in *; [done|].
  destruct n as [s|es]; [done|].
  destruct (es !! x) as [child|]; [|done].
  by rewrite (IH child H).
Qed.

Lemma mkdir_parents_exists (p : Path) (n m : node) :
  stat p n = inr m → mkdir_parents p n = inl FileExistsError.
Proof.
  revert n. induction p as [|x p IH]; intros n H; simpl in *; [done|].
  destruct n as [s|es]; [done|].
  destruct (es !! x) as [child|]; [|done].
  by rewrite (IH child H).
Qed.

(** After a successful [mkdir(parents=True)] the path and all its ancestors
    are directories. *)
Lemma mkdir_parents_dirs (p q : Path) (n n' : node) :
  mkdir_parents p n = inr n' → q `prefix_of` p → path_is_dir q n' = true.
Proof.
  revert q n n'. induction p as [|x p IH]; intros q n n' H Hq; simpl in H; [done|].
  destruct n as [s|es]; [done|].
  destruct q as [|y q].
  { destruct (es !! x); [destruct (mkdir_parents p n)|]; by simplify_eq. }
  apply prefix_cons_inv_1 in Hq as Hxy. subst y.
  apply prefix_cons_inv_2 in Hq.
  unfold path_is_dir. simpl.
  destruct (es !! x) as [child|] eqn:Hx.
  - destruct (mkdir_parents p child) as [e|child'] eqn:Hc; simplify_eq.
    simpl. rewrite lookup_insert_eq. by apply (IH q child child').
  - simplify_eq. simpl. rewrite lookup_insert_eq. by apply fresh_chain_dir.
Qed.

(** What existed before [mkdir(parents=True)] is still there: regular files
    keep their content and directories stay directories. *)
Lemma mkdir_parents_keeps_files (p q : Path) (n n' : node) (s : string) :
  mkdir_parents p n = inr n' →
  stat q n = inr (RegFile s) → stat q n' = inr (RegFile s).
Proof.
  revert q n n'. induction p as [|x p IH]; intros q n n' H Hq; simpl in H; [done|].
  destruct n as [s0|es]; [done|].
  destruct q as [|y q]; [done|]. simpl in Hq.
  destruct (es !! y) as [cq|] eqn:Hy; [|done].
  destruct (decide (x = y)) as [->|Hne].
  - rewrite Hy in H.
    destruct (mkdir_parents p cq) as [e|child'] eqn:Hc; simplify_eq.
    simpl. rewrite lookup_insert_eq. eauto.
  - destruct (es !! x) as [child|]; [destruct (mkdir_parents p child)|];
      simplify_eq; simpl; by rewrite lookup_insert_ne, Hy.
Qed.

Lemma mkdir_parents_keeps_dirs (p q : Path) (n n' : node) :
  mkdir_parents p n = inr n' →
  path_is_dir q n = true → path_is_dir q n' = true.
Proof.
  revert q n n'. induction p as [|x p IH]; intros q n n' H Hq; simpl in H; [done|].
  destruct n as [s0|es]; [done|].
  destruct q as [|y q].
  { destruct (es !! x); [destruct (mkdir_parents p n)|]; by simplify_eq. }
  unfold path_is_dir in *. simpl in Hq.
  destruct (es !! y) as [cq|] eqn:Hy; [|done].
  destruct (decide (x = y)) as [->|Hne].
  - rewrite Hy in H.
    destruct (mkdir_parents p cq) as [e|child'] eqn:Hc; simplify_eq.
    simpl. rewrite lookup_insert_eq. eauto.
  - destruct (es !! x) as [child|]; [destruct (mkdir_parents p child)|];
      simplify_eq; simpl; by rewrite lookup_insert_ne, Hy.
Qed.

(** Whether a file can be opened or written does not depend on the text. *)
Lemma update_file_error (f g : option string → string) (p : Path) (n : node)
    (e : Exn) :
  update_file f p n = inl e → update_file g p n = inl e.
Proof.
  revert n. induction p as [|x p IH]; intros n H; simpl in *.
  { destruct n; by simplify_eq. }
  destruct n as [s|es]; [done|].
  destruct (es !! x) as [child|].
  - destruct (update_file f p child) as [e'|child'] eqn:Hc; simplify_eq.
    by rewrite (IH child Hc).
  - destruct p; by simplify_eq.
Qed.

(** Two updates of the same file amount to one. *)
Lemma update_file_twice (f g : option string → string) (p : Path)
    (n n' : node) :
  update_file f p n = inr n' →
  update_file g p n' = update_file (λ old, g (Some (f old))) p n.
Proof.
  revert n n'. induction p as [|x p IH]; intros n n' H; simpl in *.
  { destruct n; by simplify_eq. }
  destruct n as [s|es]; [done|].
  destruct (es !! x) as [child|] eqn:Hx.
  - destruct (update_file f p child) as [e'|child'] eqn:Hc; simplify_eq.
    simpl. rewrite lookup_insert_eq, (IH child child' Hc).
    destruct (update_file (λ old, g (Some (f old))) p child); [done|].
    by rewrite insert_insert_eq.
  - destruct p; simplify_eq. simpl.
    rewrite lookup_insert_eq. simpl. by rewrite insert_insert_eq.
Qed.

(** After an update the path names a regular file. *)
Lemma update_file_stat (f : option string → string) (p : Path) (n n' : node) :
  update_file f p n = inr n' → ∃ old, stat p n' = inr (RegFile (f old)).
Proof.
  revert n n'. induction p as [|x p IH]; intros n n' H; simpl in *.
  { destruct n; simplify_eq. eauto. }
  destruct n as [s|es]; [done|].
  destruct (es !! x) as [child|] eqn:Hx.
  - destruct (update_file f p child) as [e'|child'] eqn:Hc; simplify_eq.
    simpl. rewrite lookup_insert_eq. eauto.
  - destruct p; simplify_eq. simpl. rewrite lookup_insert_eq. eauto.
Qed.

(** Updating one file of a directory leaves the other entries of that
    directory as they were. *)
Lemma update_file_sibling (f : option string → string) (d : Path)
    (a b : string) (n n' : node) :
  a ≠ b → update_file f (d ++ [b]) n = inr n' →
  stat (d ++ [a]) n' = stat (d ++ [a]) n.
Proof.
  intros Hab. revert n n'. induction d as [|x d IH]; intros n n' H; simpl in *.
  - destruct n as [s|es]; [done|].
    destruct (es !! b) as [child|];
      [destruct child; simplify_eq|simplify_eq];
      simpl; by rewrite lookup_insert_ne.
  - destruct n as [s|es]; [done|].
    destruct (es !! x) as [child|] eqn:Hx.
    + destruct (update_file f (d ++ [b]) child) as [e'|child'] eqn:Hc;
        simplify_eq.
      simpl. rewrite lookup_insert_eq. eauto.
    + destruct (d ++ [b]) eqn:Hd; [by destruct d|done].
Qed.

(** ** The monad *)

Lemma add_logs_nil (w : World) : add_logs [] w = w.
Proof. destruct w. unfold add_logs. simpl. by rewrite app_nil_r. Qed.

Lemma add_logs_app (ms1 ms2 : list LogMsg) (w : World) :
  add_logs ms2 (add_logs ms1 w) = add_logs (ms1 ++ ms2) w.
Proof. unfold add_logs. simpl. by rewrite fmap_app, app_assoc. Qed.

Section Quiet.
Context {A B : Type}.

Lemma quiet_ret (a : A) : quiet (ret a) (Ok a) [].
Proof. intros w. by rewrite add_logs_nil. Qed.

Lemma quiet_bind (m : M A) (k : A → M B) (a : A) (o : Outcome B)
    (ms1 ms2 : list LogMsg) :
  quiet m (Ok a) ms1 → quiet (k a) o ms2 → quiet (bind m k) o (ms1 ++ ms2).
Proof.
  intros Hm Hk w. unfold bind. by rewrite Hm, Hk, add_logs_app.
Qed.

(** A quiet computation has one outcome. *)
Lemma quiet_outcome (m : M A) (o1 o2 : Outcome A) (ms : list LogMsg)
    (w w' : World) :
  quiet m o1 ms → m w = (o2, w') → o2 = o1 ∧ w' = add_logs ms w.
Proof. intros Hm H. rewrite Hm in H. by simplify_eq. Qed.
End Quiet.

Lemma quiet_log (m : LogMsg) : quiet (log m) (Ok tt) [m].
Proof. done. Qed.

Section Emits.
Context (P : Event → Prop).

Lemma emits_ret {A} (a : A) : emits P (ret a).
Proof. intros w. exists []. by rewrite app_nil_r. Qed.

Lemma emits_sys_exit {A} (e : Fatal) : emits P (@sys_exit A e).
Proof. intros w. exists []. by rewrite app_nil_r. Qed.

Lemma emits_raise {A} (e : Exn) : emits P (@raise A e).
Proof. intros w. exists []. by rewrite app_nil_r. Qed.

Lemma emits_bind {A B} (m : M A) (k : A → M B) :
  emits P m → (∀ a, emits P (k a)) → emits P (bind m k).
Proof.
  intros Hm Hk w. unfold bind. destruct (Hm w) as (evs1 & Ht1 & HP1).
  destruct (m w) as [[a|e|e] w1]; simpl in *; [|by eauto..].
  destruct (Hk a w1) as (evs2 & Ht2 & HP2).
  exists (evs1 ++ evs2). rewrite Ht2, Ht1, app_assoc.
  split; [done|]. by apply Forall_app.
Qed.

Lemma emits_emit (e : Event) : P e → emits P (emit e).
Proof. intros He w. exists [e]. split; [done|]. by constructor. Qed.

Lemma emits_log (m : LogMsg) : P (Log m) → emits P (log m).
Proof. apply emits_emit. Qed.

Lemma emits_when (b : bool) (m : M unit) : emits P m → emits P (when b m).
Proof. destruct b; [done|]. intros _. apply emits_ret. Qed.

Lemma emits_is_file (p : Path) : emits P (is_file p).
Proof. intros w. exists []. by rewrite app_nil_r. Qed.

Lemma emits_is_dir (p : Path) : emits P (is_dir p).
Proof. intros w. exists []. by rewrite app_nil_r. Qed.

Lemma emits_fs_op (op : node → Exn + node) (e : Event) :
  P e → emits P (fs_op op e).
Proof.
  intros He w. unfold fs_op. destruct (op (fs w)); simpl.
  - exists []. by rewrite app_nil_r.
  - exists [e]. split; [done|]. by constructor.
Qed.

Lemma emits_call {A} (st : Stage) (seqs : ContigSet) (body : Ext A) :
  P (Run st seqs) → emits P (call st seqs body).
Proof.
  intros He w. unfold call. destruct (body (rng w)). simpl.
  exists [Run st seqs]. split; [done|]. by constructor.
Qed.

Lemma emits_quiet {A} (m : M A) (o : Outcome A) (ms : list LogMsg) :
  (∀ x, P (Log x)) → quiet m o ms → emits P m.
Proof.
  intros HP Hm w. rewrite Hm. exists (Log <$> ms). split; [done|].
  apply Forall_fmap, Forall_forall. intros x _. apply HP.
Qed.
End Emits.

(** ** Validation *)

Section Validation.
Context (c : Collaborators).

Lemma check_input_reads_not_fastq (filename : string) :
  get_sequence_file_type c filename ≠ "FASTQ" →
  quiet (check_input_reads c filename) (Exit (ReadsNotFastq filename)) [].
Proof.
  intros H w. unfold check_input_reads, bind, when.
  rewrite bool_decide_eq_true_2 by done. by rewrite add_logs_nil.
Qed.

Lemma check_input_reads_fastq (filename : string) :
  get_sequence_file_type c filename = "FASTQ" →
  ∃ ms, quiet (check_input_reads c filename) (Ok tt) ms.
Proof.
  intros H. destruct (get_fastq_stats c filename) as [[n t] n50] eqn:Hs.
  exists [LogInputReads filename; LogReadStats n t; LogN50 n50; LogBlank].
  intros w. unfold check_input_reads, bind, when.
  rewrite bool_decide_eq_false_2 by (intros H'; by apply H').
  simpl. rewrite Hs. unfold log, emit, add_logs. simpl. by rewrite <- !app_assoc.
Qed.

(** One iteration of the loop of [check_input_contigs]. *)
Lemma check_input_contigs_loop_cons (i : nat) (f : string)
    (rest : list string) (names : gset string) (w : World) :
  check_input_contigs_loop c i (f :: rest) names w =
  if bool_decide (get_sequence_file_type c f ≠ "FASTA")
  then (Exit (ContigNotFasta f), w)
  else match load_fasta c f with
       | [] => (Exit (ContigNoSequences f), w)
       | [r] =>
           if bool_decide (r.1 ∈ names)
           then (Exit (DuplicateContigName r.1), w)
           else if decide (i < 26)
                then check_input_contigs_loop c (S i) rest (names ∪ {[ r.1 ]})
                       (add_logs [LogContig (letter i) f r.1 (String.length r.2)] w)
                else (Raise IndexError, w)
       | _ :: _ :: _ => (Exit (ContigMultipleSequences f), w)
       end.
Proof.
  simpl. unfold bind at 1. unfold when at 1.
  destruct (bool_decide (get_sequence_file_type c f ≠ "FASTA")); [done|].
  destruct (load_fasta c f) as [|r [|r' l]]; [done| |done].
  unfold bind, when, list_item, ret, sys_exit. simpl.
  destruct (bool_decide (r.1 ∈ names)); [done|].
  destruct (decide (i < 26)) as [Hi|Hi].
  - by rewrite ascii_uppercase_at_lt.
  - rewrite ascii_uppercase_at_ge by lia. done.
Qed.

Lemma loop_outcome_sound i filenames names o :
  loop_outcome c i filenames names o →
  ∃ ms, quiet (check_input_contigs_loop c i filenames names) o ms.
Proof.
  induction 1 as [i names|i f rest names Ht|i f rest names Ht Hl
                 |i f rest names Ht Hl|i f rest names r Ht Hl Hin
                 |i f rest names r Ht Hl Hin Hi
                 |i f rest names r o Ht Hl Hin Hi _ [ms IH]].
  - exists []. apply quiet_ret.
  - exists []. intros w. rewrite check_input_contigs_loop_cons.
    rewrite bool_decide_eq_true_2 by done. by rewrite add_logs_nil.
  - exists []. intros w. rewrite check_input_contigs_loop_cons.
    rewrite bool_decide_eq_false_2 by (intros H'; by apply H').
    by rewrite Hl, add_logs_nil.
  - exists []. intros w. rewrite check_input_contigs_loop_cons.
    rewrite bool_decide_eq_false_2 by (intros H'; by apply H').
    destruct (load_fasta c f) as [|r [|r' l]]; simpl in Hl; [lia..|].
    by rewrite add_logs_nil.
  - exists []. intros w. rewrite check_input_contigs_loop_cons.
    rewrite bool_decide_eq_false_2 by (intros H'; by apply H').
    rewrite Hl, bool_decide_eq_true_2 by done. by rewrite add_logs_nil.
  - exists []. intros w. rewrite check_input_contigs_loop_cons.
    rewrite bool_decide_eq_false_2 by (intros H'; by apply H').
    rewrite Hl, bool_decide_eq_false_2 by done.
    destruct (decide (i < 26)); [lia|]. by rewrite add_logs_nil.
  - exists (LogContig (letter i) f r.1 (String.length r.2) :: ms).
    intros w. rewrite check_input_contigs_loop_cons.
    rewrite bool_decide_eq_false_2 by (intros H'; by apply H').
    rewrite Hl, bool_decide_eq_false_2 by done.
    destruct (decide (i < 26)); [|lia].
    by rewrite IH, add_logs_app.
Qed.

Lemma loop_outcome_total i filenames names :
  ∃ o, loop_outcome c i filenames names o.
Proof.
  revert i names. induction filenames as [|f rest IH]; intros i names.
  { eexists. constructor. }
  destruct (decide (get_sequence_file_type c f = "FASTA")) as [Ht|Ht];
    [|eexists; by apply loop_not_fasta].
  destruct (load_fasta c f) as [|r [|r' l]] eqn:Hl.
  - eexists. by apply loop_no_sequences.
  - destruct (decide (r.1 ∈ names)) as [Hin|Hin];
      [eexists; by eapply loop_duplicate|].
    destruct (decide (i < 26)) as [Hi|Hi].
    + destruct (IH (S i) (names ∪ {[ r.1 ]})) as [o Ho].
      exists o. by eapply loop_next.
    + eexists. eapply loop_index; eauto. lia.
  - eexists. apply loop_multiple; [done|]. rewrite Hl. simpl. lia.
Qed.

(** Every run of the loop is described by the relation. *)
Lemma loop_outcome_run i filenames names w o w' :
  check_input_contigs_loop c i filenames names w = (o, w') →
  loop_outcome c i filenames names o ∧ ∃ ms, w' = add_logs ms w.
Proof.
  intros Hrun. destruct (loop_outcome_total i filenames names) as [o0 Ho].
  destruct (loop_outcome_sound _ _ _ _ Ho) as [ms Hq].
  destruct (quiet_outcome _ _ _ _ _ _ Hq Hrun) as [-> ->]. eauto.
Qed.

(** A prefix of good files with fresh, distinct names is passed over. *)
Lemma loop_outcome_prefix pre rest i names o :
  Forall (single_fasta c) pre →
  NoDup (first_names c pre) →
  (∀ x, x ∈ first_names c pre → x ∉ names) →
  i + length pre ≤ 26 →
  loop_outcome c (i + length pre) rest
    (names ∪ list_to_set (first_names c pre)) o →
  loop_outcome c i (pre ++ rest) names o.
Proof.
  revert i names. induction pre as [|f pre IH]; intros i names Hs Hnd Hfr Hi Ho.
  { simpl in Ho. rewrite Nat.add_0_r in Ho.
    by replace (names ∪ ∅) with names in Ho by set_solver. }
  apply Forall_cons in Hs as [[Ht Hl] Hs].
  destruct (load_fasta c f) as [|r [|r' l]] eqn:Hr; simplify_eq/=.
  unfold first_names in Hnd, Hfr, Ho. simpl in Hnd, Hfr, Ho.
  rewrite Hr in Hnd, Hfr, Ho. simpl in Hnd, Hfr, Ho.
  apply NoDup_cons in Hnd as [Hr1 Hnd].
  eapply loop_next; eauto; [apply Hfr; left|lia|].
  apply IH; [done..| |lia|].
  - intros x Hx. specialize (Hfr x). set_solver.
  - replace (S i + length pre) with (i + S (length pre)) by lia.
    by replace (names ∪ {[r.1]} ∪ list_to_set (first_names c pre))
      with (names ∪ ({[r.1]} ∪ list_to_set (first_names c pre)))
      by set_solver.
Qed.

(** Among good files, a repeated first record name is found, and the one
    reported is the earliest repetition. *)
Lemma loop_outcome_repeated filenames i names :
  Forall (single_fasta c) filenames →
  i + length filenames ≤ 26 →
  (∃ x, x ∈ first_names c filenames ∧ x ∈ names)
    ∨ ¬ NoDup (first_names c filenames) →
  ∃ x j,
    loop_outcome c i filenames names (Exit (DuplicateContigName x))
    ∧ first_names c filenames !! j = Some x
    ∧ (x ∈ names ∨ ∃ j', j' < j ∧ first_names c filenames !! j' = Some x).
Proof.
  revert i names.
  induction filenames as [|f rest IH]; intros i names Hs Hi Hrep.
  { destruct Hrep as [(x & Hx & _)|Hnd]; [by apply elem_of_nil in Hx|].
    destruct Hnd. constructor. }
  apply Forall_cons in Hs as [[Ht Hl] Hs].
  destruct (load_fasta c f) as [|r [|r' l]] eqn:Hr; try (simpl in Hl; lia).
  simpl in Hi.
  assert (first_names c (f :: rest) = r.1 :: first_names c rest) as Hfn.
  { unfold first_names. simpl. by rewrite Hr. }
  rewrite Hfn in Hrep. rewrite Hfn.
  destruct (decide (r.1 ∈ names)) as [Hin|Hin].
  { exists r.1, 0. split_and!; [by eapply loop_duplicate|done|by left]. }
  destruct (IH (S i) (names ∪ {[ r.1 ]}) Hs) as (x & j & Ho & Hj & Hx);
    [lia| |].
  { destruct Hrep as [(x & Hx & Hxn)|Hnd].
    - left. exists x. split; [|set_solver].
      apply elem_of_cons in Hx as [->|Hx]; done.
    - destruct (decide (r.1 ∈ first_names c rest)) as [Hr1|Hr1].
      + left. exists r.1. split; [done|set_solver].
      + right. intros Hnd'. apply Hnd. by apply NoDup_cons. }
  exists x, (S j). split_and!; [by eapply loop_next; eauto; lia|done|].
  destruct Hx as [Hx|(j' & Hj' & Hx)].
  - apply elem_of_union in Hx as [Hx|Hx]; [by left|].
    apply elem_of_singleton in Hx as ->. right. exists 0. split; [lia|done].
  - right. exists (S j'). split; [lia|done].
Qed.

(** When all record names are distinct and new, the duplicate check
    does not fire. *)
Lemma loop_outcome_distinct i filenames names o :
  loop_outcome c i filenames names o →
  NoDup (record_names c filenames) →
  (∀ x, x ∈ record_names c filenames → x ∉ names) →
  ∀ x, o ≠ Exit (DuplicateContigName x).
Proof.
  induction 1 as [| | | |i f rest names r Ht Hl Hin|
                 |i f rest names r o Ht Hl Hin Hi _ IH];
    intros Hnd Hfr x; try done.
  - exfalso. apply (Hfr r.1); [|done].
    unfold record_names. simpl. rewrite Hl. by left.
  - unfold record_names in Hnd, Hfr. simpl in Hnd, Hfr.
    rewrite Hl in Hnd, Hfr. simpl in Hnd, Hfr.
    apply NoDup_cons in Hnd as [Hr1 Hnd].
    apply IH; [done|]. intros y Hy.
    specialize (Hfr y). set_solver.
Qed.

(** A name already seen that is still to come stops the loop. *)
Lemma loop_outcome_seen i filenames names x :
  x ∈ names → x ∈ first_names c filenames →
  ¬ loop_outcome c i filenames names (Ok tt).
Proof.
  intros Hx Hmem Hout. remember (Ok tt) as o eqn:Ho.
  induction Hout as [| | | |i f rest names r Ht Hl Hin|
                    |i f rest names r o Ht Hl Hin Hi Hrest IH];
    try done.
  - by apply elem_of_nil in Hmem.
  - unfold first_names in Hmem. simpl in Hmem. rewrite Hl in Hmem.
    simpl in Hmem. apply elem_of_cons in Hmem as [->|Hmem]; [done|].
    apply IH; [set_solver|done|done].
Qed.

(** A loop that completes has seen only good files, at most 26 of them,
    with distinct names. *)
Lemma loop_outcome_ok i filenames names :
  loop_outcome c i filenames names (Ok tt) →
  Forall (single_fasta c) filenames
  ∧ (filenames ≠ [] → i + length filenames ≤ 26)
  ∧ NoDup (first_names c filenames).
Proof.
  remember (Ok tt) as o eqn:Ho.
  induction 1 as [| | | | | |i f rest names r o Ht Hl Hin Hi Hrest IH];
    try done.
  { split_and!; [constructor|done|constructor]. }
  destruct (IH Ho) as (Hs & Hlen & Hnd). subst o.
  assert (first_names c (f :: rest) = r.1 :: first_names c rest) as ->.
  { unfold first_names. simpl. by rewrite Hl. }
  split_and!.
  - constructor; [|done]. split; [done|]. by rewrite Hl.
  - intros _. simpl. destruct rest; [simpl; lia|].
    specialize (Hlen ltac:(done)). simpl in *. lia.
  - apply NoDup_cons. split; [|done]. intros Hmem.
    eapply (loop_outcome_seen (S i) rest (names ∪ {[ r.1 ]}) r.1);
      [set_solver|done|done].
Qed.


(** The only exception of the loop is the one of the letter lookup, at
    index 26. *)
Lemma loop_outcome_raise i filenames names ex :
  loop_outcome c i filenames names (Raise ex) →
  ex = IndexError ∧ 26 < i + length filenames.
Proof.
  remember (Raise ex) as o eqn:Ho.
  induction 1 as [| | | | |i f rest names r Ht Hl Hin Hi
                 |i f rest names r o Ht Hl Hin Hi _ IH];
    try done.
  - injection Ho as <-. split; [done|simpl; lia].
  - destruct (IH Ho) as [-> Hlen]. split; [done|simpl in *; lia].
Qed.

Lemma first_names_head (f : string) (rest : list string)
    (r : string * string) :
  load_fasta c f = [r] →
  first_names c (f :: rest) = r.1 :: first_names c rest.
Proof. intros Hl. unfold first_names. simpl. by rewrite Hl. Qed.

(** A loop that ends in a fatal error stopped at the first file that
    fails a check: the files before it are good, with distinct and new
    record names. *)
Lemma loop_outcome_exit i filenames names e :
  loop_outcome c i filenames names (Exit e) →
  ∃ pre f post,
    filenames = pre ++ f :: post
    ∧ Forall (single_fasta c) pre
    ∧ NoDup (first_names c pre)
    ∧ (∀ x, x ∈ first_names c pre → x ∉ names)
    ∧ failed_file_check c (elements names ++ first_names c pre) f e.
Proof.
  remember (Exit e) as o eqn:Ho.
  induction 1 as [|i f rest names Ht|i f rest names Ht Hl
                 |i f rest names Ht Hl|i f rest names r Ht Hl Hin|
                 |i f rest names r o Ht Hl Hin Hi _ IH];
    try done.
  - injection Ho as <-. exists [], f, rest.
    split_and!; [done|constructor|constructor|by intros x ?%elem_of_nil|].
    by left.
  - injection Ho as <-. exists [], f, rest.
    split_and!; [done|constructor|constructor|by intros x ?%elem_of_nil|].
    right. left. by rewrite Hl.
  - injection Ho as <-. exists [], f, rest.
    split_and!; [done|constructor|constructor|by intros x ?%elem_of_nil|].
    right. right. by left.
  - injection Ho as <-. exists [], f, rest.
    split_and!; [done|constructor|constructor|by intros x ?%elem_of_nil|].
    do 3 right. split; [done|]. exists r. split_and!; [done| |done].
    rewrite app_nil_r. by apply elem_of_elements.
  - destruct (IH Ho) as (pre & g & post & -> & Hs & Hnd & Hfr & Hfail).
    exists (f :: pre), g, post.
    rewrite (first_names_head f pre r Hl).
    split_and!.
    + done.
    + constructor; [|done]. split; [done|]. by rewrite Hl.
    + apply NoDup_cons. split; [|done]. intros Hmem.
      apply (Hfr _ Hmem). set_solver.
    + intros x Hx. apply elem_of_cons in Hx as [->|Hx]; [done|].
      specialize (Hfr x Hx). set_solver.
    + destruct Hfail as [?|[?|[?|(Hg & r' & Hl' & Hmem & ->)]]];
        [by left|by right; left|by right; right; left|].
      do 3 right. split; [done|]. exists r'. split_and!; [done| |done].
      apply elem_of_app in Hmem as [Hmem|Hmem].
      * apply elem_of_elements, elem_of_union in Hmem as [Hmem|Hmem].
        -- apply elem_of_app. left. by apply elem_of_elements.
        -- apply elem_of_singleton in Hmem as ->.
           apply elem_of_app. right. by left.
      * apply elem_of_app. right. by right.
Qed.

(** Good files have no record beside the first. *)
Lemma record_names_single (filenames : list string) :
  Forall (single_fasta c) filenames →
  record_names c filenames = first_names c filenames.
Proof.
  induction 1 as [|f rest [_ Hl] _ IH]; [done|].
  unfold record_names, first_names in *. simpl. rewrite IH.
  by destruct (load_fasta c f) as [|r [|r' l]].
Qed.

(** Two files that hold a record of the same name: the record names are
    not pairwise distinct. *)
Lemma record_names_shared (filenames : list string) (j1 j2 : nat)
    (f1 f2 x : string) :
  j1 < j2 →
  filenames !! j1 = Some f1 → filenames !! j2 = Some f2 →
  x ∈ (load_fasta c f1).*1 → x ∈ (load_fasta c f2).*1 →
  ¬ NoDup (record_names c filenames).
Proof.
  revert j1 j2. induction filenames as [|f rest IH];
    intros j1 j2 Hlt H1 H2 Hx1 Hx2 Hnd; [done|].
  unfold record_names in Hnd. simpl in Hnd.
  apply NoDup_app in Hnd as (_ & Hdisj & Hnd).
  destruct j2 as [|j2]; [lia|]. simpl in H2.
  destruct j1 as [|j1]; simpl in H1.
  - injection H1 as ->. apply (Hdisj x Hx1).
    apply list_elem_of_In, in_flat_map. exists f2. split.
    + apply list_elem_of_In. by eapply list_elem_of_lookup_2.
    + by apply list_elem_of_In.
  - apply (IH j1 j2); [lia|done..].
Qed.
End Validation.

Section Checks.
Context (c : Collaborators).

Lemma check_input_contigs_few (filenames : list string) :
  length filenames < 2 →
  quiet (check_input_contigs c filenames) (Exit TooFewContigs) [].
Proof.
  intros H w. unfold check_input_contigs, bind, when.
  rewrite bool_decide_eq_true_2 by done. by rewrite add_logs_nil.
Qed.

Lemma check_input_contigs_many (filenames : list string) :
  2 ≤ length filenames →
  MAX_INPUT_CONTIGS c < length filenames →
  quiet (check_input_contigs c filenames)
    (Exit (TooManyContigs (MAX_INPUT_CONTIGS c))) [].
Proof.
  intros H2 H w. unfold check_input_contigs, bind, when.
  rewrite bool_decide_eq_false_2 by lia. simpl.
  rewrite bool_decide_eq_true_2 by done. by rewrite add_logs_nil.
Qed.

Lemma check_input_contigs_loop_run (filenames : list string)
    (o : Outcome unit) :
  2 ≤ length filenames →
  length filenames ≤ MAX_INPUT_CONTIGS c →
  loop_outcome c 0 filenames ∅ o →
  ∃ ms, quiet (check_input_contigs c filenames) o ms.
Proof.
  intros H2 Hmax Ho.
  destruct (loop_outcome_sound c _ _ _ _ Ho) as [ms Hq].
  assert (∀ w, check_input_contigs c filenames w
               = bind (check_input_contigs_loop c 0 filenames ∅)
                   (λ _, log LogBlank) (add_logs [LogInputContigs] w)) as Heq.
  { intros w. unfold check_input_contigs, bind at 1 2 3, when.
    rewrite !bool_decide_eq_false_2 by lia. done. }
  destruct o as [[]|e|e].
  - exists ([LogInputContigs] ++ ms ++ [LogBlank]). intros w.
    rewrite Heq. unfold bind. rewrite Hq. unfold log, emit. simpl.
    unfold add_logs. simpl. by rewrite !fmap_app, <- !app_assoc.
  - exists ([LogInputContigs] ++ ms). intros w.
    rewrite Heq. unfold bind. by rewrite Hq, add_logs_app.
  - exists ([LogInputContigs] ++ ms). intros w.
    rewrite Heq. unfold bind. by rewrite Hq, add_logs_app.
Qed.

(** The three ways [check_input_contigs] can go. *)
Lemma check_input_contigs_cases (filenames : list string) :
  ∃ o ms,
    quiet (check_input_contigs c filenames) o ms
    ∧ ((length filenames < 2 ∧ o = Exit TooFewContigs)
       ∨ (2 ≤ length filenames ∧ MAX_INPUT_CONTIGS c < length filenames
          ∧ o = Exit (TooManyContigs (MAX_INPUT_CONTIGS c)))
       ∨ (2 ≤ length filenames ∧ length filenames ≤ MAX_INPUT_CONTIGS c
          ∧ loop_outcome c 0 filenames ∅ o)).
Proof.
  destruct (decide (length filenames < 2)) as [H2|H2].
  { eexists _, _. split; [by apply check_input_contigs_few|]. by left. }
  destruct (decide (MAX_INPUT_CONTIGS c < length filenames)) as [Hm|Hm].
  { eexists _, _. split; [apply check_input_contigs_many; lia|].
    right. left. split_and!; [lia|done|done]. }
  destruct (loop_outcome_total c 0 filenames ∅) as [o Ho].
  destruct (check_input_contigs_loop_run filenames o) as [ms Hq];
    [lia|lia|done|].
  exists o, ms. split; [done|]. right. right. split_and!; [lia|lia|done].
Qed.

(** A run of [check_input_contigs] that returns has seen between two and
    26 good files with distinct names. *)
Lemma check_input_contigs_ok (filenames : list string) (w w' : World) :
  check_input_contigs c filenames w = (Ok tt, w') →
  Forall (single_fasta c) filenames
  ∧ 2 ≤ length filenames
  ∧ length filenames ≤ MAX_INPUT_CONTIGS c
  ∧ length filenames ≤ 26
  ∧ NoDup (first_names c filenames).
Proof.
  intros Hrun.
  destruct (check_input_contigs_cases filenames) as (o & ms & Hq & Hc).
  destruct (quiet_outcome _ _ _ _ _ _ Hq Hrun) as [<- _].
  destruct Hc as [[_ ?]|[(_ & _ & ?)|(H2 & Hm & Ho)]]; [done..|].
  destruct (loop_outcome_ok c _ _ _ Ho) as (Hs & Hlen & Hnd).
  split_and!; [done..| |done].
  destruct filenames; [simpl in H2; lia|]. by apply Hlen.
Qed.

(** [check_output_directory], by the state of the path. *)
Lemma check_output_directory_file (directory : Path) (w : World) :
  path_is_file directory (fs w) = true →
  check_output_directory directory w = (Exit (OutDirIsFile directory), w).
Proof.
  intros H. unfold check_output_directory, bind, is_file, when. by rewrite H.
Qed.

Lemma check_output_directory_dir (directory : Path) (w : World) :
  path_is_dir directory (fs w) = true →
  check_output_directory directory w
  = (Ok tt, add_logs [LogOutDirExists directory; LogBlank] w).
Proof.
  intros H. unfold check_output_directory, bind, is_file, is_dir, when.
  assert (path_is_file directory (fs w) = false) as ->.
  { unfold path_is_file, path_is_dir in *.
    by destruct (stat directory (fs w)) as [|[]]. }
  simpl. rewrite H. unfold log, emit, add_logs. simpl.
  by rewrite <- app_assoc.
Qed.

Lemma check_output_directory_absent (directory : Path) (w : World) :
  path_exists directory (fs w) = false →
  check_output_directory directory w
  = match mkdir_parents directory (fs w) with
    | inl e => (Raise e, add_logs [LogCreatingOutDir directory] w)
    | inr root' =>
        (Ok tt, mkWorld root' (rng w)
                  (trace w ++ [Log (LogCreatingOutDir directory);
                               Mkdir directory; Log LogBlank]))
    end.
Proof.
  intros H. unfold check_output_directory, bind, is_file, is_dir, when.
  unfold path_is_file, path_is_dir, path_exists in *.
  destruct (stat directory (fs w)) as [e|n] eqn:Hst; [|done]. simpl.
  rewrite Hst. unfold mkdir, fs_op, log, emit. simpl.
  destruct (mkdir_parents directory (fs w)); [reflexivity|].
  simpl. by rewrite <- !app_assoc.
Qed.

Lemma emits_check_output_directory (P : Event → Prop) (directory : Path) :
  (∀ m, P (Log m)) → P (Mkdir directory) →
  emits P (check_output_directory directory).
Proof.
  intros HL HM. unfold check_output_directory.
  apply emits_bind; [apply emits_is_file|intros b].
  apply emits_bind; [apply emits_when, emits_sys_exit|intros _].
  apply emits_bind; [apply emits_is_dir|intros d].
  apply emits_bind; [|intros _; by apply emits_log].
  destruct d; [by apply emits_log|].
  apply emits_bind; [by apply emits_log|intros _]. by apply emits_fs_op.
Qed.

Lemma check_input_reads_cases (filename : string) :
  ∃ o ms, quiet (check_input_reads c filename) o ms
          ∧ (o = Ok tt ∧ get_sequence_file_type c filename = "FASTQ"
             ∨ o = Exit (ReadsNotFastq filename)
               ∧ get_sequence_file_type c filename ≠ "FASTQ").
Proof.
  destruct (decide (get_sequence_file_type c filename = "FASTQ")) as [H|H].
  - destruct (check_input_reads_fastq c filename H) as [ms Hq]. eauto 6.
  - eexists _, _. split; [by apply check_input_reads_not_fastq|]. eauto.
Qed.

Lemma emits_check_inputs_and_requirements (P : Event → Prop) (args : Args) :
  (∀ m, P (Log m)) → P (Mkdir (out_dir args)) →
  emits P (check_inputs_and_requirements c args).
Proof.
  intros HL HM. unfold check_inputs_and_requirements.
  destruct (check_input_reads_cases (reads args)) as (o1 & ms1 & Hq1 & _).
  destruct (check_input_contigs_cases (contigs args)) as (o2 & ms2 & Hq2 & _).
  apply emits_bind; [by eapply emits_quiet|intros _].
  apply emits_bind; [by eapply emits_quiet|intros _].
  apply emits_bind; [by apply emits_check_output_directory|intros _].
  apply emits_ret.
Qed.
End Checks.

(** ** Loading *)

Lemma dict_set_fresh (k v : string) (d : ContigSet) :
  k ∉ dict_keys d → dict_set k v d = d ++ [(k, v)].
Proof.
  unfold dict_keys. induction d as [|[k' v'] d IH]; intros Hk; simpl; [done|].
  simpl in Hk. apply not_elem_of_cons in Hk as [Hne Hk].
  destruct (decide (k' = k)); [congruence|]. by rewrite IH.
Qed.

Lemma labelled_keys (c : Collaborators) (i : nat) (filenames : list string) :
  dict_keys (labelled c i filenames) = letter <$> seq i (length filenames).
Proof.
  unfold dict_keys. revert i.
  induction filenames as [|f rest IH]; intros i; simpl; [done|].
  by rewrite IH.
Qed.

Lemma labelled_length (c : Collaborators) (i : nat) (filenames : list string) :
  length (labelled c i filenames) = length filenames.
Proof.
  revert i. induction filenames as [|f rest IH]; intros i; simpl; [done|].
  by rewrite IH.
Qed.

Lemma labelled_lookup (c : Collaborators) (i j : nat)
    (filenames : list string) (f : string) :
  filenames !! j = Some f →
  labelled c i filenames !! j
  = Some (letter (i + j), (default ("", "") (head (load_fasta c f))).2).
Proof.
  revert i j. induction filenames as [|g rest IH]; intros i j Hj; [done|].
  destruct j as [|j]; simpl in *.
  - simplify_eq. by rewrite Nat.add_0_r.
  - rewrite <- Nat.add_succ_comm. by apply IH.
Qed.

Section Loading.
Context (c : Collaborators).

(** One iteration of the loop of [load_contig_sequences]. *)
Lemma load_contig_sequences_loop_cons (i : nat) (f : string)
    (rest : list string) (acc : ContigSet) (w : World) :
  load_contig_sequences_loop c i (f :: rest) acc w =
  if decide (i < 26)
  then match load_fasta c f with
       | [r] => load_contig_sequences_loop c (S i) rest
                  (dict_set (letter i) r.2 acc) w
       | _ => (Raise AssertionError, w)
       end
  else (Raise IndexError, w).
Proof.
  simpl. unfold bind at 1.
  destruct (decide (i < 26)) as [Hi|Hi].
  - rewrite ascii_uppercase_at_lt by done.
    by destruct (load_fasta c f) as [|r [|r' l]].
  - rewrite ascii_uppercase_at_ge by lia. done.
Qed.

(** The loop reads the world and adds nothing to it. *)
Lemma load_contig_sequences_loop_pure (i : nat) (filenames : list string)
    (acc : ContigSet) :
  ∃ o, ∀ w, load_contig_sequences_loop c i filenames acc w = (o, w).
Proof.
  revert i acc. induction filenames as [|f rest IH]; intros i acc.
  { by exists (Ok acc). }
  destruct (decide (i < 26)) as [Hi|Hi].
  - destruct (load_fasta c f) as [|r [|r' l]] eqn:Hl.
    + exists (Raise AssertionError). intros w.
      rewrite load_contig_sequences_loop_cons, Hl. by destruct (decide _).
    + destruct (IH (S i) (dict_set (letter i) r.2 acc)) as [o Ho].
      exists o. intros w.
      rewrite load_contig_sequences_loop_cons, Hl. by destruct (decide _).
    + exists (Raise AssertionError). intros w.
      rewrite load_contig_sequences_loop_cons, Hl. by destruct (decide _).
  - exists (Raise IndexError). intros w.
    rewrite load_contig_sequences_loop_cons. by destruct (decide _).
Qed.

(** On single-record files, at most 26 of them, the loop returns the
    letters paired with the sequences. *)
Lemma load_contig_sequences_loop_run (i : nat) (filenames : list string)
    (acc : ContigSet) (w : World) :
  Forall (λ f, length (load_fasta c f) = 1) filenames →
  i + length filenames ≤ 26 →
  (∀ k, k ∈ dict_keys acc → ∃ j, j < i ∧ k = letter j) →
  load_contig_sequences_loop c i filenames acc w
  = (Ok (acc ++ labelled c i filenames), w).
Proof.
  revert i acc. induction filenames as [|f rest IH]; intros i acc Hs Hi Hacc.
  { simpl. by rewrite app_nil_r. }
  apply Forall_cons in Hs as [Hl Hs]. simpl in Hi.
  rewrite load_contig_sequences_loop_cons.
  destruct (decide (i < 26)) as [Hi26|]; [|lia].
  destruct (load_fasta c f) as [|r [|r' l]] eqn:Hr; try (simpl in Hl; lia).
  rewrite dict_set_fresh.
  - rewrite IH; [|done|lia|].
    + simpl. rewrite Hr. simpl. by rewrite <- app_assoc.
    + intros k Hk. unfold dict_keys in Hk. rewrite fmap_app in Hk.
      apply elem_of_app in Hk as [Hk|Hk].
      * destruct (Hacc k Hk) as (j & Hj & ->). exists j. split; [lia|done].
      * apply list_elem_of_singleton in Hk. exists i. split; [lia|done].
  - intros Hk. destruct (Hacc _ Hk) as (j & Hj & Heq).
    apply letter_inj in Heq; lia.
Qed.

(** Conversely, when the loop returns, every file had one record and the
    result is the labelled set. *)
Lemma load_contig_sequences_loop_inv (i : nat) (filenames : list string)
    (acc cs : ContigSet) (w w' : World) :
  (∀ k, k ∈ dict_keys acc → ∃ j, j < i ∧ k = letter j) →
  load_contig_sequences_loop c i filenames acc w = (Ok cs, w') →
  cs = acc ++ labelled c i filenames
  ∧ Forall (λ f, length (load_fasta c f) = 1) filenames
  ∧ (filenames ≠ [] → i + length filenames ≤ 26).
Proof.
  revert i acc. induction filenames as [|f rest IH]; intros i acc Hacc Hrun.
  { simpl in Hrun. unfold ret in Hrun. simplify_eq.
    by rewrite app_nil_r. }
  rewrite load_contig_sequences_loop_cons in Hrun.
  destruct (decide (i < 26)) as [Hi|Hi]; [|done].
  destruct (load_fasta c f) as [|r [|r' l]] eqn:Hr; try done.
  assert (letter i ∉ dict_keys acc) as Hfresh.
  { intros Hk. destruct (Hacc _ Hk) as (j & Hj & Heq).
    apply letter_inj in Heq; lia. }
  rewrite dict_set_fresh in Hrun by done.
  apply IH in Hrun as (-> & Hs & Hlen).
  - split_and!.
    + simpl. rewrite Hr. simpl. by rewrite <- app_assoc.
    + constructor; [by rewrite Hr|done].
    + intros _. simpl. destruct rest; [simpl; lia|].
      specialize (Hlen ltac:(done)). simpl in *. lia.
  - intros k Hk. unfold dict_keys in Hk. rewrite fmap_app in Hk.
    apply elem_of_app in Hk as [Hk|Hk].
    + destruct (Hacc k Hk) as (j & Hj & ->). exists j. split; [lia|done].
    + apply list_elem_of_singleton in Hk. exists i. split; [lia|done].
Qed.

Lemma load_contig_sequences_pure (filenames : list string) :
  ∃ o, ∀ w, load_contig_sequences c filenames w = (o, w).
Proof. apply load_contig_sequences_loop_pure. Qed.

Lemma load_contig_sequences_inv (filenames : list string) (cs : ContigSet)
    (w w' : World) :
  load_contig_sequences c filenames w = (Ok cs, w') →
  cs = labelled c 0 filenames
  ∧ Forall (λ f, length (load_fasta c f) = 1) filenames
  ∧ length filenames ≤ 26.
Proof.
  intros Hrun. apply load_contig_sequences_loop_inv in Hrun
    as (-> & Hs & Hlen).
  - split_and!; [done..|]. destruct filenames; [simpl; lia|].
    by apply Hlen.
  - intros k Hk. by apply elem_of_nil in Hk.
Qed.

(** After a successful validation the loader succeeds. *)
Lemma load_contig_sequences_validated (filenames : list string)
    (w w' w2 : World) :
  check_input_contigs c filenames w = (Ok tt, w') →
  load_contig_sequences c filenames w2 = (Ok (labelled c 0 filenames), w2).
Proof.
  intros Hv. apply check_input_contigs_ok in Hv as (Hs & _ & _ & H26 & _).
  unfold load_contig_sequences.
  rewrite load_contig_sequences_loop_run; [done| |simpl; lia|].
  - eapply Forall_impl; [exact Hs|]. by intros f [_ ?].
  - intros k Hk. by apply elem_of_nil in Hk.
Qed.
End Loading.

(** ** Saving *)

Lemma update_file_ok (f g : option string → string) (p : Path) (n n1 : node) :
  update_file f p n = inr n1 → ∃ n2, update_file g p n = inr n2.
Proof.
  intros H. destruct (update_file g p n) as [e|n2] eqn:Hg; [|eauto].
  apply (update_file_error g f) in Hg. congruence.
Qed.

Lemma save_seqs_to_fasta_loop_run (p : Path) (items : ContigSet) (w : World)
    (text0 : string) (n : node) :
  update_file (λ _, text0) p n = inr (fs w) →
  ∃ n', update_file (λ _, text0 +:+ fasta_text items) p n = inr n'
        ∧ save_seqs_to_fasta_loop p items w
          = (Ok tt, mkWorld n' (rng w)
                      (trace w ++ (Write p <$> fasta_writes items))).
Proof.
  revert w text0. induction items as [|[name seq] rest IH]; intros w text0 H.
  { exists (fs w). simpl. split.
    - by rewrite string_app_nil_r.
    - destruct w. unfold ret. simpl. by rewrite app_nil_r. }
  destruct (update_file_ok (λ _, text0) (λ _, text0 +:+ (">" +:+ name +:+ newline))
              p n _ H) as [n1 H1].
  destruct (update_file_ok (λ _, text0)
              (λ _, (text0 +:+ (">" +:+ name +:+ newline)) +:+ (seq +:+ newline))
              p n _ H) as [n2 H2].
  destruct (IH (mkWorld n2 (rng w)
                  ((trace w ++ [Write p (">" +:+ name +:+ newline)])
                     ++ [Write p (seq +:+ newline)]))
              ((text0 +:+ (">" +:+ name +:+ newline)) +:+ (seq +:+ newline)) H2)
    as (n' & Hn' & Hrun).
  exists n'. split.
  - rewrite <- Hn'. f_equal. simpl. unfold fasta_record.
    by rewrite !string_app_assoc.
  - simpl. unfold bind at 1. unfold file_write at 1, fs_op.
    rewrite (update_file_twice _ _ _ _ _ H). simpl. rewrite H1.
    unfold bind at 1. unfold file_write at 1, fs_op. simpl.
    rewrite (update_file_twice _ _ _ _ _ H1). simpl. rewrite H2.
    rewrite Hrun. simpl. by rewrite <- !app_assoc.
Qed.

(** What [save_seqs_to_fasta] does, in one equation. *)
Lemma save_seqs_to_fasta_run (seqs : ContigSet) (filename : Path) (w : World) :
  save_seqs_to_fasta seqs filename w
  = match update_file (λ _, fasta_text seqs) filename (fs w) with
    | inl e => (Raise e, add_logs [LogSaving filename] w)
    | inr root' =>
        (Ok tt, mkWorld root' (rng w) (trace w ++ save_events seqs filename))
    end.
Proof.
  unfold save_seqs_to_fasta, bind at 1 2. unfold log at 1, emit. simpl.
  unfold open_wt, fs_op. simpl.
  destruct (update_file (λ _, "") filename (fs w)) as [e|n1] eqn:Ho.
  { by rewrite (update_file_error _ (λ _, fasta_text seqs) _ _ _ Ho). }
  destruct (save_seqs_to_fasta_loop_run filename seqs
              (mkWorld n1 (rng w)
                 ((trace w ++ [Log (LogSaving filename)]) ++ [OpenWrite filename]))
              "" (fs w) Ho) as (n' & Hn' & Hrun).
  change ("" +:+ fasta_text seqs) with (fasta_text seqs) in Hn'.
  rewrite Hn'. unfold bind. rewrite Hrun. unfold log, emit, save_events. simpl.
  by rewrite <- !app_assoc.
Qed.

Lemma emits_save_seqs_to_fasta (P : Event → Prop) (seqs : ContigSet)
    (filename : Path) :
  (∀ m, P (Log m)) → P (OpenWrite filename) →
  (∀ text, P (Write filename text)) →
  emits P (save_seqs_to_fasta seqs filename).
Proof.
  intros HL HO HW. unfold save_seqs_to_fasta.
  apply emits_bind; [by apply emits_log|intros _].
  apply emits_bind; [by apply emits_fs_op|intros _].
  apply emits_bind; [|intros _; by apply emits_log].
  induction seqs as [|[name seq] rest IH]; simpl; [apply emits_ret|].
  apply emits_bind; [by apply emits_fs_op|intros _].
  apply emits_bind; [by apply emits_fs_op|intros _]. done.
Qed.

(** ** The pipeline *)

Lemma bind_assoc_run {A B C} (m : M A) (k : A → M B) (k' : B → M C) (w : World) :
  bind (bind m k) k' w = bind m (λ a, bind (k a) k') w.
Proof. unfold bind. by destruct (m w) as [[a|e|e] w1]. Qed.

Lemma bind_cong_run {A B} (m : M A) (k1 k2 : A → M B) (w : World) :
  (∀ a w1, k1 a w1 = k2 a w1) → bind m k1 w = bind m k2 w.
Proof. intros H. unfold bind. by destruct (m w) as [[a|e|e] w1]. Qed.

Lemma call_run {A} (st : Stage) (seqs : ContigSet) (body : Ext A) (w : World)
    (o : Outcome A) (w' : World) :
  call st seqs body w = (o, w') →
  ∃ r', body (rng w) = (o, r')
        ∧ w' = mkWorld (fs w) r' (trace w ++ [Run st seqs]).
Proof.
  unfold call. destruct (body (rng w)) as [o1 r1]. intros [= <- <-]. eauto.
Qed.

Section Preserves.
Context (I : node → Prop).


End Preserves.


Section Pipeline.
Context (c : Collaborators).

Lemma main_parse_exit (argv : list string) (e : Fatal) (w : World) :
  parse_args c argv = inl e → main c argv w = (Exit e, w).
Proof. intros H. unfold main, bind, get_arguments. by rewrite H. Qed.

Lemma main_phases (argv : list string) (ns : Namespace) (w : World) :
  parse_args c argv = inr ns →
  main c argv w
  = bind (normalise_phase c (args_of ns)) (output_phase c (args_of ns)) w.
Proof.
  intros H. unfold main, get_arguments. rewrite H.
  unfold bind at 1. unfold ret at 1. cbv beta iota.
  unfold normalise_phase, output_phase.
  repeat (rewrite bind_assoc_run; apply bind_cong_run; intros ? ?; cbv beta).
  cbv zeta. destruct (circular (args_of ns)); [|reflexivity].
  rewrite bind_assoc_run. apply bind_cong_run. reflexivity.
Qed.

Lemma emits_load_contig_sequences (P : Event → Prop) (filenames : list string) :
  emits P (load_contig_sequences c filenames).
Proof.
  destruct (load_contig_sequences_pure c filenames) as [o Ho].
  intros w. rewrite Ho. exists []. by rewrite app_nil_r.
Qed.

Lemma emits_welcome_message (P : Event → Prop) :
  (∀ m, P (Log m)) → emits P welcome_message.
Proof.
  intros HL. unfold welcome_message.
  apply emits_bind; [by apply emits_log|intros _]. by apply emits_log.
Qed.

(** The events of the first phase: the seeding, then events of the
    class [P]. *)
Lemma normalise_phase_events (P : Event → Prop) (args : Args) (w : World) :
  (∀ m, P (Log m)) →
  P (Mkdir (out_dir args)) →
  (∀ s, P (Run InitialSanityCheck s) ∧ P (Run GetStartingSeq s)) →
  (circular args = true →
   ∀ s, P (Run Circularise s) ∧ P (Run RotateToStartingSeq s)) →
  ∃ evs, trace (normalise_phase c args w).2 = trace w ++ Seed 0 :: evs
         ∧ Forall P evs.
Proof.
  intros HL HM HS HC. unfold normalise_phase. unfold bind at 1.
  unfold random_seed at 1. cbv beta iota.
  match goal with
  | |- context [trace (?m ?w0).2] => assert (emits P m) as Hm
  end.
  { apply emits_bind; [by apply emits_welcome_message|intros _].
    apply emits_bind; [by apply emits_check_inputs_and_requirements|intros _].
    apply emits_bind; [apply emits_load_contig_sequences|intros seqs].
    apply emits_bind; [apply emits_call, HS|intros _].
    apply emits_bind; [apply emits_call, HS|intros r].
    cbv zeta. destruct (circular args); [|apply emits_ret].
    apply emits_bind; [apply emits_call, HC; done|intros s].
    apply emits_call, HC; done. }
  destruct (Hm (mkWorld (fs w) (seed_state c 0) (trace w ++ [Seed 0])))
    as (evs & Ht & HP).
  exists evs. split; [|done]. rewrite Ht. simpl. by rewrite <- app_assoc.
Qed.

Lemma output_phase_events (P : Event → Prop) (args : Args)
    (seqs : ContigSet) :
  (∀ m, P (Log m)) →
  (∀ p, P (OpenWrite p)) →
  (∀ p text, P (Write p text)) →
  P (Run GetPerBaseScores seqs) →
  P (Run GetPairwiseAlignments seqs) →
  P (Run GetConsensusSeq seqs) →
  emits P (output_phase c args seqs).
Proof.
  intros HL HO HW H1 H2 H3. unfold output_phase.
  apply emits_bind; [by apply emits_save_seqs_to_fasta|intros _].
  apply emits_bind; [by apply emits_call|intros ?].
  apply emits_bind; [by apply emits_call|intros ?].
  apply emits_bind; [by apply emits_call|intros ?].
  by apply emits_save_seqs_to_fasta.
Qed.


End Pipeline.

(** ** Fatal errors of the validation, seen from [main] *)

Section ValidationExit.
Context (c : Collaborators).

Lemma welcome_message_quiet :
  ∃ ms, quiet welcome_message (Ok tt) ms.
Proof.
  eexists. unfold welcome_message.
  eapply quiet_bind; [apply quiet_log|apply quiet_log].
Qed.

Lemma seeded_logs (w w' : World) (ms : list LogMsg) :
  w' = add_logs ms (seeded c w) →
  fs w' = fs w
  ∧ ∃ evs, trace w' = trace w ++ evs
           ∧ Forall (λ ev, is_stage_event ev = false
                           ∧ is_output_event ev = false) evs.
Proof.
  intros ->. split; [done|]. exists (Seed 0 :: (Log <$> ms)). split.
  - simpl. by rewrite <- app_assoc.
  - constructor; [done|]. apply Forall_fmap, Forall_forall. by intros x _.
Qed.

(** An exit of [check_input_reads] is the exit of [main]. *)
Lemma main_reads_exit (argv : list string) (ns : Namespace) (e : Fatal)
    (ms : list LogMsg) (w : World) :
  parse_args c argv = inr ns →
  quiet (check_input_reads c (ns_reads ns)) (Exit e) ms →
  ∃ ms', main c argv w = (Exit e, add_logs ms' (seeded c w)).
Proof.
  intros Hp Hr. destruct welcome_message_quiet as [ms0 H0].
  exists (ms0 ++ ms). rewrite (main_phases c _ _ _ Hp).
  unfold bind at 1. unfold normalise_phase. unfold bind at 1.
  unfold random_seed at 1. cbv beta iota. fold (seeded c w).
  unfold bind at 1. rewrite H0.
  unfold bind at 1. unfold check_inputs_and_requirements.
  unfold bind at 1. simpl. rewrite Hr. by rewrite add_logs_app.
Qed.

(** So is an exit of [check_input_contigs], when the reads pass. *)
Lemma main_contigs_exit (argv : list string) (ns : Namespace) (e : Fatal)
    (ms1 ms2 : list LogMsg) (w : World) :
  parse_args c argv = inr ns →
  quiet (check_input_reads c (ns_reads ns)) (Ok tt) ms1 →
  quiet (check_input_contigs c (ns_contigs ns)) (Exit e) ms2 →
  ∃ ms', main c argv w = (Exit e, add_logs ms' (seeded c w)).
Proof.
  intros Hp Hr Hc. destruct welcome_message_quiet as [ms0 H0].
  exists (ms0 ++ ms1 ++ ms2). rewrite (main_phases c _ _ _ Hp).
  unfold bind at 1. unfold normalise_phase. unfold bind at 1.
  unfold random_seed at 1. cbv beta iota. fold (seeded c w).
  unfold bind at 1. rewrite H0.
  unfold bind at 1. unfold check_inputs_and_requirements.
  unfold bind at 1. simpl. rewrite Hr.
  unfold bind at 1. rewrite Hc. by rewrite !add_logs_app.
Qed.

Lemma aborts_in_validation_intro (argv : list string) (w : World)
    (e : Fatal) (ms : list LogMsg) :
  exit_status e = 1%Z →
  main c argv w = (Exit e, add_logs ms (seeded c w)) →
  aborts_in_validation c argv w e.
Proof.
  intros He Hrun. eexists. split; [exact Hrun|]. split; [done|].
  by eapply seeded_logs.
Qed.

(** The fatal errors of [check_input_contigs] reach [main] when the
    reads are in FASTQ format. *)
Lemma main_contigs_abort (argv : list string) (ns : Namespace) (e : Fatal)
    (ms : list LogMsg) (w : World) :
  parse_args c argv = inr ns →
  get_sequence_file_type c (ns_reads ns) = "FASTQ" →
  quiet (check_input_contigs c (ns_contigs ns)) (Exit e) ms →
  exit_status e = 1%Z →
  aborts_in_validation c argv w e.
Proof.
  intros Hp Hr Hc He.
  destruct (check_input_reads_fastq c _ Hr) as [ms1 H1].
  destruct (main_contigs_exit argv ns e ms1 ms w Hp H1 Hc) as [ms' Hrun].
  by eapply aborts_in_validation_intro.
Qed.
End ValidationExit.

(** ** The events of a whole run *)

Lemma main_events (c : Collaborators) (P : Event → Prop) (argv : list string)
    (ns : Namespace) (w : World) :
  parse_args c argv = inr ns →
  (∀ m, P (Log m)) →
  (∀ p, P (Mkdir p)) →
  (∀ p, P (OpenWrite p)) →
  (∀ p text, P (Write p text)) →
  (∀ st s, st ≠ Circularise → st ≠ RotateToStartingSeq → P (Run st s)) →
  (ns_not_circular ns = false →
   ∀ s, P (Run Circularise s) ∧ P (Run RotateToStartingSeq s)) →
  ∃ evs, trace (main c argv w).2 = trace w ++ Seed 0 :: evs ∧ Forall P evs.
Proof.
  intros Hp HL HM HO HW HR HC. rewrite (main_phases c _ _ _ Hp). unfold bind.
  destruct (normalise_phase_events c P (args_of ns) w) as (evs1 & Ht1 & HP1);
    [done|done|by split; apply HR| |].
  { simpl. intros Hc. apply HC. by destruct (ns_not_circular ns). }
  destruct (normalise_phase c (args_of ns) w) as [[s|e|e] w1]; simpl in *;
    [|by eauto..].
  destruct (output_phase_events c P (args_of ns) s) with (w := w1)
    as (evs2 & Ht2 & HP2); [done|done|done|by apply HR..|].
  exists (evs1 ++ evs2). rewrite Ht2, Ht1. split.
  - by rewrite <- app_assoc.
  - by apply Forall_app.
Qed.

(** ** Record names and labels *)




(** * The claims *)

(** C2 (as amended).  When the list of input contig files has fewer than
    two entries or more than [MAX_INPUT_CONTIGS], [main] stops with a fatal
    error of exit status 1 during validation, before any stage runs and
    with the file system untouched.  When the reads are in FASTQ format the
    error is "two or more input contigs are required" for the short list
    and "you cannot have more than N input contigs" for the long one; when
    they are not, the reads are checked first and the error is the one
    about the reads. *)
Theorem contig_count_is_checked (c : Collaborators) (argv : list string)
    (ns : Namespace) (w : World) :
  parse_args c argv = inr ns →
  length (ns_contigs ns) < 2
    ∨ MAX_INPUT_CONTIGS c < length (ns_contigs ns) →
  ∃ e, aborts_in_validation c argv w e
       ∧ (get_sequence_file_type c (ns_reads ns) = "FASTQ" →
          (length (ns_contigs ns) < 2 →
           e = TooFewContigs
           ∧ message e = "Error: two or more input contigs are required")
          ∧ (2 ≤ length (ns_contigs ns) →
             e = TooManyContigs (MAX_INPUT_CONTIGS c)))
       ∧ (get_sequence_file_type c (ns_reads ns) ≠ "FASTQ" →
          e = ReadsNotFastq (ns_reads ns)).
Proof.
  intros Hp Hn.
  destruct (decide (get_sequence_file_type c (ns_reads ns) = "FASTQ"))
    as [Hr|Hr].
  - destruct (decide (length (ns_contigs ns) < 2)) as [H2|H2].
    + exists TooFewContigs. split_and!; [|intros _; split; [done|lia]|done].
      eapply main_contigs_abort; eauto using check_input_contigs_few.
    + exists (TooManyContigs (MAX_INPUT_CONTIGS c)).
      split_and!; [|intros _; split; [lia|done]|done].
      eapply main_contigs_abort; eauto.
      apply check_input_contigs_many; lia.
  - exists (ReadsNotFastq (ns_reads ns)). split_and!; [|done..].
    destruct (main_reads_exit c argv ns _ [] w Hp
                (check_input_reads_not_fastq c _ Hr)) as [ms Hrun].
    by eapply aborts_in_validation_intro.
Qed.

Lemma contig_count_is_checked_witness :
  parse_args one_contig_run [] = inr one_contig_ns
  ∧ length (ns_contigs one_contig_ns) < 2
  ∧ aborts_in_validation one_contig_run [] empty_world TooFewContigs.
Proof.
  split; [reflexivity|]. split; [simpl; lia|].
  destruct (contig_count_is_checked one_contig_run [] one_contig_ns
              empty_world eq_refl) as (e & Ha & He & _).
  - left. simpl. lia.
  - destruct (He eq_refl) as [Hfew _].
    destruct Hfew as [-> _]; [simpl; lia|]. exact Ha.
Defined.

(** C2 as stated fails: with one contig file and reads that are not in
    FASTQ format, the error is the one about the reads, not "two or more
    input contigs are required". *)
Lemma contig_count_after_reads :
  ns_contigs (mkNamespace ["a.fasta"] "reads.txt" ["out"] 4 false) = ["a.fasta"]
  ∧ (main one_contig_bad_reads [] empty_world).1
    = Exit (ReadsNotFastq "reads.txt")
  ∧ message (ReadsNotFastq "reads.txt")
    = "Error: input reads (reads.txt) are not in FASTQ format"
  ∧ message (ReadsNotFastq "reads.txt") ≠ message TooFewContigs.
Proof. split_and!; [reflexivity|by vm_compute|reflexivity|done]. Qed.

(** C3 (as amended).  (1) For a list of between two and
    [MAX_INPUT_CONTIGS], and at most 26, contig files, each in FASTA format
    with exactly one record, and reads in FASTQ format: if two files have
    the same record name, [main] stops during validation with "duplicate
    contig name: x", where [x] is the record name of two of the files,
    before any stage runs and with the file system untouched.  (2) For
    every list of at most 26 contig files of which two hold a record of
    the same name, whatever the reads and the other files are: [main]
    stops during validation, before any stage runs and with the file
    system untouched, with the error of the first check that fails (the
    format of the reads, the number of files, then file by file the format,
    the number of records and the name of the record).  (3) Conversely, for
    every list of contig files, if all record names are pairwise distinct,
    [check_input_contigs] never exits with the duplicate-name error. *)
Theorem duplicate_names_are_fatal (c : Collaborators) :
  (∀ argv ns w,
     parse_args c argv = inr ns →
     get_sequence_file_type c (ns_reads ns) = "FASTQ" →
     2 ≤ length (ns_contigs ns) →
     length (ns_contigs ns) ≤ MAX_INPUT_CONTIGS c →
     length (ns_contigs ns) ≤ 26 →
     Forall (single_fasta c) (ns_contigs ns) →
     ¬ NoDup (first_names c (ns_contigs ns)) →
     ∃ x j1 j2,
       j1 < j2
       ∧ first_names c (ns_contigs ns) !! j1 = Some x
       ∧ first_names c (ns_contigs ns) !! j2 = Some x
       ∧ aborts_in_validation c argv w (DuplicateContigName x)
       ∧ message (DuplicateContigName x)
         = "Error: duplicate contig name: " +:+ x)
  ∧ (∀ argv ns w j1 j2 f1 f2 x,
       parse_args c argv = inr ns →
       length (ns_contigs ns) ≤ 26 →
       j1 < j2 →
       ns_contigs ns !! j1 = Some f1 →
       ns_contigs ns !! j2 = Some f2 →
       x ∈ (load_fasta c f1).*1 →
       x ∈ (load_fasta c f2).*1 →
       ∃ e, aborts_in_validation c argv w e
            ∧ first_failed_check c (ns_reads ns) (ns_contigs ns) e)
  ∧ (∀ filenames,
       NoDup (record_names c filenames) →
       ∀ w0 x, (check_input_contigs c filenames w0).1
               ≠ Exit (DuplicateContigName x)).
Proof.
  split_and!.
  - intros argv ns w Hp Hr H2 Hmax H26 Hs Hnd.
    destruct (loop_outcome_repeated c (ns_contigs ns) 0 ∅ Hs)
      as (x & j & Ho & Hj & Hx); [simpl; lia|by right|].
    destruct Hx as [Hx|(j' & Hj' & Hx)]; [set_solver|].
    exists x, j', j. split_and!; [done..| |done].
    destruct (check_input_contigs_loop_run c _ _ H2 Hmax Ho) as [ms Hq].
    by eapply main_contigs_abort.
  - intros argv ns w j1 j2 f1 f2 x Hp H26 Hlt H1 H2 Hx1 Hx2.
    destruct (decide (get_sequence_file_type c (ns_reads ns) = "FASTQ"))
      as [Hr|Hr].
    + destruct (check_input_contigs_cases c (ns_contigs ns))
        as (o & ms & Hq & Hc).
      destruct Hc as [[Hfew ->]|[(Hge & Hmany & ->)|(Hge & Hmax & Ho)]].
      * exists TooFewContigs. split; [by eapply main_contigs_abort|].
        right. split; [done|]. by left.
      * exists (TooManyContigs (MAX_INPUT_CONTIGS c)).
        split; [by eapply main_contigs_abort|].
        right. split; [done|]. right. by left.
      * destruct o as [[]|e|ex].
        -- exfalso. destruct (loop_outcome_ok c _ _ _ Ho) as (Hs & _ & Hnd).
           rewrite <- (record_names_single c _ Hs) in Hnd.
           exact (record_names_shared c _ _ _ _ _ _ Hlt H1 H2 Hx1 Hx2 Hnd).
        -- destruct (loop_outcome_exit c _ _ _ _ Ho)
             as (pre & f & post & Hsplit & Hs & Hnd & _ & Hfail).
           rewrite elements_empty in Hfail. simpl in Hfail.
           exists e. split.
           ++ eapply main_contigs_abort; eauto.
              by destruct Hfail
                as [[_ ->]|[(_ & _ & ->)|[(_ & _ & ->)|(_ & r & _ & _ & ->)]]].
           ++ right. split; [done|]. right. right.
              split_and!; [done..|]. by exists pre, f, post.
        -- apply loop_outcome_raise in Ho as [_ Hlen]. simpl in Hlen. lia.
    + exists (ReadsNotFastq (ns_reads ns)). split; [|by left].
      destruct (main_reads_exit c argv ns _ [] w Hp
                  (check_input_reads_not_fastq c _ Hr)) as [ms Hrun].
      by eapply aborts_in_validation_intro.
  - intros filenames Hnd w0 x.
    destruct (check_input_contigs_cases c filenames) as (o & ms & Hq & Hc).
    rewrite Hq. simpl.
    destruct Hc as [[_ ->]|[(_ & _ & ->)|(_ & _ & Ho)]]; [done..|].
    eapply loop_outcome_distinct; eauto. set_solver.
Qed.

Lemma duplicate_names_are_fatal_witness :
  (¬ NoDup (first_names same_name_run ["a.fasta"; "b.fasta"])
   ∧ ∃ x, aborts_in_validation same_name_run [] empty_world
            (DuplicateContigName x))
  ∧ ("x" ∈ (load_fasta repeated_name_run "a.fasta").*1
     ∧ "x" ∈ (load_fasta repeated_name_run "c.fasta").*1
     ∧ ∃ e, aborts_in_validation repeated_name_run [] empty_world e
            ∧ first_failed_check repeated_name_run "reads.fastq"
                ["a.fasta"; "b.fasta"; "c.fasta"] e)
  ∧ (NoDup (record_names (two_contigs false) ["a.fasta"; "b.fasta"])
     ∧ ∀ x, (check_input_contigs (two_contigs false) ["a.fasta"; "b.fasta"]
               empty_world).1 ≠ Exit (DuplicateContigName x)).
Proof.
  assert (¬ NoDup (first_names same_name_run ["a.fasta"; "b.fasta"])) as Hnd.
  { intros H. apply NoDup_cons in H as [H _]. apply H. by left. }
  assert ("x" ∈ (load_fasta repeated_name_run "a.fasta").*1) as Ha.
  { by left. }
  assert ("x" ∈ (load_fasta repeated_name_run "c.fasta").*1) as Hc.
  { by left. }
  assert (NoDup (record_names (two_contigs false) ["a.fasta"; "b.fasta"]))
    as Hdist.
  { apply (bool_decide_unpack _). by vm_compute. }
  split; [|split].
  - split; [exact Hnd|].
    destruct (duplicate_names_are_fatal same_name_run) as (Hdup & _ & _).
    destruct (Hdup []
                (mkNamespace ["a.fasta"; "b.fasta"] "reads.fastq" ["out"] 4
                   false)
                empty_world eq_refl eq_refl)
      as (x & _ & _ & _ & _ & _ & Habort & _).
    + simpl. lia.
    + simpl. lia.
    + simpl. lia.
    + repeat constructor.
    + exact Hnd.
    + exists x. exact Habort.
  - split; [exact Ha|]. split; [exact Hc|].
    destruct (duplicate_names_are_fatal repeated_name_run) as (_ & Hother & _).
    apply (Hother []
             (mkNamespace ["a.fasta"; "b.fasta"; "c.fasta"] "reads.fastq"
                ["out"] 4 false)
             empty_world 0 2 "a.fasta" "c.fasta" "x" eq_refl).
    + simpl. lia.
    + lia.
    + reflexivity.
    + reflexivity.
    + exact Ha.
    + exact Hc.
  - split; [exact Hdist|].
    destruct (duplicate_names_are_fatal (two_contigs false)) as (_ & _ & Hconv).
    intros x. by apply Hconv.
Defined.

(** C3 as stated fails: two of three files hold a record named [x], yet
    the error is about the second file, which holds two records, and does
    not name the duplicate. *)
Lemma duplicate_name_not_reported :
  (load_fasta repeated_name_run "a.fasta").*1 = ["x"]
  ∧ (load_fasta repeated_name_run "c.fasta").*1 = ["x"]
  ∧ (main repeated_name_run [] empty_world).1
    = Exit (ContigMultipleSequences "b.fasta")
  ∧ message (ContigMultipleSequences "b.fasta")
    = "Error: input contig file (b.fasta) contains multiple sequences".
Proof. split_and!; [reflexivity|reflexivity|by vm_compute|reflexivity]. Qed.




(** C4 (as amended).  [check_output_directory] exits fatally if and only
    if the output path exists as a regular file.  When the path does not
    exist and no regular file lies on the way to it, the directory is
    created together with its missing parents, and nothing that existed is
    lost.  An existing directory never causes an abort and leaves the file
    system as it is.  When a regular file lies on the way to the path,
    [mkdir] raises [NotADirectoryError] and nothing is created. *)
Theorem output_directory_check (directory : Path) (w : World) :
  ((∃ e, (check_output_directory directory w).1 = Exit e)
   ↔ path_is_file directory (fs w) = true)
  ∧ (path_is_file directory (fs w) = true →
     check_output_directory directory w = (Exit (OutDirIsFile directory), w)
     ∧ exit_status (OutDirIsFile directory) = 1%Z)
  ∧ (stat directory (fs w) = inl FileNotFoundError →
     (check_output_directory directory w).1 = Ok tt
     ∧ (∀ q, q `prefix_of` directory →
             path_is_dir q (fs (check_output_directory directory w).2) = true)
     ∧ (∀ q s, stat q (fs w) = inr (RegFile s) →
               stat q (fs (check_output_directory directory w).2)
               = inr (RegFile s))
     ∧ (∀ q, path_is_dir q (fs w) = true →
             path_is_dir q (fs (check_output_directory directory w).2) = true))
  ∧ (path_is_dir directory (fs w) = true →
     (check_output_directory directory w).1 = Ok tt
     ∧ fs (check_output_directory directory w).2 = fs w)
  ∧ (stat directory (fs w) = inl NotADirectoryError →
     (check_output_directory directory w).1 = Raise NotADirectoryError
     ∧ fs (check_output_directory directory w).2 = fs w).
Proof.
  assert (path_is_file directory (fs w) = false →
          ∀ e, (check_output_directory directory w).1 ≠ Exit e) as Hnofile.
  { intros Hf e.
    destruct (stat directory (fs w)) as [x|[s|es]] eqn:Hst.
    - rewrite check_output_directory_absent
        by (unfold path_exists; by rewrite Hst).
      by destruct (mkdir_parents directory (fs w)).
    - unfold path_is_file in Hf. by rewrite Hst in Hf.
    - rewrite check_output_directory_dir
        by (unfold path_is_dir; by rewrite Hst).
      done. }
  split_and!.
  - split.
    + intros [e He].
      destruct (path_is_file directory (fs w)) eqn:Hf; [done|].
      by destruct (Hnofile eq_refl e).
    + intros Hf. rewrite check_output_directory_file by done. eauto.
  - intros Hf. split; [by apply check_output_directory_file|done].
  - intros Hst.
    rewrite check_output_directory_absent
      by (unfold path_exists; by rewrite Hst).
    destruct (mkdir_parents_missing _ _ Hst) as [n' Hn']. rewrite Hn'. simpl.
    split_and!; [done|..].
    + intros q Hq. by eapply mkdir_parents_dirs.
    + intros q s Hq. by eapply mkdir_parents_keeps_files.
    + intros q Hq. by eapply mkdir_parents_keeps_dirs.
  - intros Hd. by rewrite check_output_directory_dir.
  - intros Hst.
    rewrite check_output_directory_absent
      by (unfold path_exists; by rewrite Hst).
    by rewrite (mkdir_parents_blocked _ _ Hst).
Qed.

Lemma output_directory_check_witness :
  stat ["out"; "run"] (fs empty_world) = inl FileNotFoundError
  ∧ (check_output_directory ["out"; "run"] empty_world).1 = Ok tt
  ∧ path_is_dir ["out"]
      (fs (check_output_directory ["out"; "run"] empty_world).2) = true
  ∧ path_is_dir ["out"; "run"]
      (fs (check_output_directory ["out"; "run"] empty_world).2) = true.
Proof.
  split; [reflexivity|].
  destruct (output_directory_check ["out"; "run"] empty_world)
    as (_ & _ & Hnew & _ & _).
  destruct (Hnew eq_refl) as (Hok & Hdirs & _).
  split_and!; [exact Hok|apply Hdirs; by exists ["run"]|by apply Hdirs].
Defined.

(** C4 as stated fails: the path [a/out] does not exist, but [a] is a
    regular file; the directory is not created and the program is aborted
    by an uncaught [NotADirectoryError]. *)
Lemma output_directory_below_a_file :
  path_exists ["a"; "out"] (fs world_with_file) = false
  ∧ path_is_file ["a"; "out"] (fs world_with_file) = false
  ∧ (check_output_directory ["a"; "out"] world_with_file).1
    = Raise NotADirectoryError
  ∧ path_is_dir ["a"; "out"]
      (fs (check_output_directory ["a"; "out"] world_with_file).2) = false.
Proof. split_and!; by vm_compute. Qed.

(** C6.  After [check_input_contigs] has accepted a list of [n] files,
    [load_contig_sequences] returns a contig set of exactly [n] entries
    whose [i]-th entry, in input order, has the label
    [string.ascii_uppercase[i]] and the sequence of the record of the
    [i]-th file; the labels are distinct. *)
Theorem loaded_labels_follow_input_order (c : Collaborators)
    (filenames : list string) (w w' w2 : World) :
  check_input_contigs c filenames w = (Ok tt, w') →
  ∃ contig_seqs,
    load_contig_sequences c filenames w2 = (Ok contig_seqs, w2)
    ∧ length contig_seqs = length filenames
    ∧ NoDup (dict_keys contig_seqs)
    ∧ ∀ i f, filenames !! i = Some f →
        ∃ a name seq,
          String.get i ascii_uppercase = Some a
          ∧ load_fasta c f = [(name, seq)]
          ∧ contig_seqs !! i = Some (String a EmptyString, seq).
Proof.
  intros Hv. exists (labelled c 0 filenames).
  pose proof (load_contig_sequences_validated c _ _ _ w2 Hv) as Hl.
  apply check_input_contigs_ok in Hv as (Hs & _ & _ & H26 & _).
  split_and!; [done|apply labelled_length| |].
  - rewrite labelled_keys. apply NoDup_fmap_2_strong; [|apply NoDup_seq].
    intros i j Hi Hj. apply elem_of_seq in Hi, Hj.
    apply letter_inj; lia.
  - intros i f Hf.
    pose proof (lookup_lt_Some _ _ _ Hf) as Hi.
    rewrite Forall_forall in Hs.
    destruct (Hs f) as [_ H1]; [by eapply list_elem_of_lookup_2|].
    destruct (load_fasta c f) as [|[name seq] [|r' l]] eqn:Hr;
      try (simpl in H1; lia).
    exists (Ascii.ascii_of_nat (65 + i)), name, seq. split_and!.
    + apply ascii_uppercase_get. lia.
    + done.
    + rewrite (labelled_lookup c 0 i filenames f Hf), Hr. done.
Qed.

Lemma loaded_labels_follow_input_order_witness :
  ∃ contig_seqs,
    load_contig_sequences (two_contigs false) ["a.fasta"; "b.fasta"] empty_world
    = (Ok contig_seqs, empty_world)
    ∧ length contig_seqs = 2.
Proof.
  destruct (loaded_labels_follow_input_order (two_contigs false)
              ["a.fasta"; "b.fasta"] empty_world
              (check_input_contigs (two_contigs false) ["a.fasta"; "b.fasta"]
                 empty_world).2
              empty_world)
    as (cs & Hl & Hlen & _).
  - by vm_compute.
  - exists cs. split; [exact Hl|exact Hlen].
Defined.

(** C9.  After [check_input_contigs] has accepted the file names, and
    with the files unchanged, every file has exactly one record, so the
    [assert len(seqs) == 1] of [load_contig_sequences] holds at every
    iteration: the loader raises no [AssertionError] (and no other
    exception), it returns. *)
Theorem loader_assertion_holds (c : Collaborators) (filenames : list string)
    (w w' w2 : World) :
  check_input_contigs c filenames w = (Ok tt, w') →
  Forall (λ f, length (load_fasta c f) = 1) filenames
  ∧ (load_contig_sequences c filenames w2).1 ≠ Raise AssertionError
  ∧ ∃ contig_seqs, (load_contig_sequences c filenames w2).1 = Ok contig_seqs.
Proof.
  intros Hv.
  rewrite (load_contig_sequences_validated c _ _ _ w2 Hv). simpl.
  apply check_input_contigs_ok in Hv as (Hs & _).
  split_and!; [|done|eauto].
  eapply Forall_impl; [exact Hs|]. by intros f [_ ?].
Qed.

Lemma loader_assertion_holds_witness :
  (load_contig_sequences (two_contigs false) ["a.fasta"; "b.fasta"]
     empty_world).1 ≠ Raise AssertionError.
Proof.
  destruct (loader_assertion_holds (two_contigs false)
              ["a.fasta"; "b.fasta"] empty_world
              (check_input_contigs (two_contigs false) ["a.fasta"; "b.fasta"]
                 empty_world).2
              empty_world)
    as (_ & Hno & _).
  - by vm_compute.
  - exact Hno.
Defined.

(** C7.  [save_seqs_to_fasta] passes to [write], for each entry of the
    mapping in order, the header [>name] followed by a line feed and then
    the whole sequence followed by a line feed, and nothing else; beside
    the two log lines and the opening of the file it does nothing more.
    When the file can be opened, it then holds exactly these records, and
    (names and sequences having no line feed of their own) its lines are
    [>name] and the sequence, two per entry. *)
Theorem fasta_output_format (seqs : ContigSet) (filename : Path) (w : World) :
  (∀ root', update_file (λ _, "") filename (fs w) = inr root' →
     (save_seqs_to_fasta seqs filename w).1 = Ok tt
     ∧ trace (save_seqs_to_fasta seqs filename w).2
       = trace w
         ++ [Log (LogSaving filename); OpenWrite filename]
         ++ (Write filename
               <$> flat_map (λ '(name, seq),
                               [">" +:+ name +:+ newline; seq +:+ newline])
                     seqs)
         ++ [Log LogBlank]
     ∧ stat filename (fs (save_seqs_to_fasta seqs filename w).2)
       = inr (RegFile (fasta_text seqs)))
  ∧ (Forall (λ '(name, seq),
               has_newline name = false ∧ has_newline seq = false) seqs →
     lines (fasta_text seqs)
     = flat_map (λ '(name, seq), [">" +:+ name; seq]) seqs)
  ∧ (∀ e, update_file (λ _, "") filename (fs w) = inl e →
     save_seqs_to_fasta seqs filename w
     = (Raise e, add_logs [LogSaving filename] w)).
Proof.
  split_and!.
  - intros root' Hopen. rewrite save_seqs_to_fasta_run.
    destruct (update_file_ok _ (λ _, fasta_text seqs) _ _ _ Hopen)
      as [n' Hn'].
    rewrite Hn'. simpl. split_and!; [done|done|].
    destruct (update_file_stat _ _ _ _ Hn') as [old Hold]. exact Hold.
  - apply lines_fasta_text.
  - intros e Hopen. rewrite save_seqs_to_fasta_run.
    by rewrite (update_file_error _ (λ _, fasta_text seqs) _ _ _ Hopen).
Qed.

Lemma fasta_output_format_witness :
  stat ["all.fasta"]
    (fs (save_seqs_to_fasta [("A", "ACGT"); ("B", "GG")] ["all.fasta"]
           empty_world).2)
  = inr (RegFile (fasta_text [("A", "ACGT"); ("B", "GG")]))
  ∧ lines (fasta_text [("A", "ACGT"); ("B", "GG")]) = [">A"; "ACGT"; ">B"; "GG"].
Proof.
  destruct (fasta_output_format [("A", "ACGT"); ("B", "GG")] ["all.fasta"]
              empty_world) as (Hopen & Hlines & _).
  split.
  - destruct (Hopen (Directory {[ "all.fasta" := RegFile "" ]}))
      as (_ & _ & Hstat); [reflexivity|exact Hstat].
  - apply Hlines. repeat constructor.
Defined.




(** C8.  Two runs of [main] on the same arguments and the same file
    system, whatever the states of the random generator they start from,
    have the same outcome, leave the same file system and produce the same
    events.  Once the arguments are parsed, [random.seed(0)] is the first
    thing a run does and it is done once: both runs continue from the
    same generator state, and every stage, every log line and every write
    comes after the seeding. *)
Theorem main_is_deterministic (c : Collaborators) (argv : list string)
    (root : node) (t : list Event) (r1 r2 : N) :
  (main c argv (mkWorld root r1 t)).1 = (main c argv (mkWorld root r2 t)).1
  ∧ fs (main c argv (mkWorld root r1 t)).2
    = fs (main c argv (mkWorld root r2 t)).2
  ∧ trace (main c argv (mkWorld root r1 t)).2
    = trace (main c argv (mkWorld root r2 t)).2
  ∧ (∀ ns, parse_args c argv = inr ns →
       main c argv (mkWorld root r1 t) = main c argv (mkWorld root r2 t)
       ∧ ∃ evs,
           trace (main c argv (mkWorld root r1 t)).2 = t ++ Seed 0 :: evs
           ∧ Forall (λ e, is_seed_event e = false) evs).
Proof.
  destruct (parse_args c argv) as [e|ns] eqn:Hp.
  - rewrite !(main_parse_exit c _ _ _ Hp). by split_and!.
  - assert (main c argv (mkWorld root r1 t) = main c argv (mkWorld root r2 t))
      as Heq.
    { rewrite !(main_phases c _ _ _ Hp).
      cbv beta iota delta [bind normalise_phase random_seed].
      reflexivity. }
    rewrite Heq. split_and!; [done..|].
    intros ns' [= <-]. split; [done|].
    rewrite <- Heq.
    by apply (main_events c (λ e, is_seed_event e = false) argv ns
                (mkWorld root r1 t)).
Qed.

Lemma main_is_deterministic_witness :
  main (two_contigs false) [] (mkWorld (Directory ∅) 1 [])
  = main (two_contigs false) [] (mkWorld (Directory ∅) 2 []).
Proof.
  destruct (main_is_deterministic (two_contigs false) [] (Directory ∅) [] 1 2)
    as (_ & _ & _ & H).
  destruct (H (mkNamespace ["a.fasta"; "b.fasta"] "reads.fastq" ["out"] 4 false)
              eq_refl) as [Heq _].
  exact Heq.
Defined.




(** * Further properties of the driver *)

(** ** Validation of the contig files *)

Section Acceptance.
Context (c : Collaborators).

Lemma first_names_cons (f : string) (rest : list string) (r : string * string) :
  load_fasta c f = [r] →
  first_names c (f :: rest) = r.1 :: first_names c rest.
Proof. intros Hr. unfold first_names. simpl. by rewrite Hr. Qed.

(** On good files with fresh, distinct names the loop returns and logs one
    line per file. *)
Lemma check_input_contigs_loop_accepts (filenames : list string) (i : nat)
    (names : gset string) :
  Forall (single_fasta c) filenames →
  NoDup (first_names c filenames) →
  (∀ x, x ∈ first_names c filenames → x ∉ names) →
  i + length filenames ≤ 26 →
  quiet (check_input_contigs_loop c i filenames names) (Ok tt)
    (contig_lines c i filenames).
Proof.
  revert i names.
  induction filenames as [|f rest IH]; intros i names Hs Hnd Hfr Hi w.
  { simpl. by rewrite add_logs_nil. }
  apply Forall_cons in Hs as [[Ht Hl] Hs]. simpl in Hi.
  destruct (load_fasta c f) as [|r [|r' l]] eqn:Hr; try (simpl in Hl; lia).
  rewrite (first_names_cons _ _ _ Hr) in Hnd, Hfr.
  apply NoDup_cons in Hnd as [Hr1 Hnd].
  rewrite check_input_contigs_loop_cons, Hr.
  rewrite bool_decide_eq_false_2 by (intros H'; by apply H').
  rewrite bool_decide_eq_false_2 by (apply Hfr; by left).
  destruct (decide (i < 26)) as [Hi26|]; [|lia].
  rewrite IH; [|done|done| |lia].
  - simpl. rewrite Hr. simpl. by rewrite add_logs_app.
  - intros x Hx. specialize (Hfr x). set_solver.
Qed.

Lemma accepted_contigs_run (filenames : list string) :
  2 ≤ length filenames →
  length filenames ≤ MAX_INPUT_CONTIGS c →
  length filenames ≤ 26 →
  Forall (single_fasta c) filenames →
  NoDup (first_names c filenames) →
  quiet (check_input_contigs c filenames) (Ok tt)
    ([LogInputContigs] ++ contig_lines c 0 filenames ++ [LogBlank]).
Proof.
  intros H2 Hmax H26 Hs Hnd w.
  unfold check_input_contigs, bind at 1 2 3, when.
  rewrite !bool_decide_eq_false_2 by lia.
  unfold bind, log at 1, emit. simpl.
  rewrite (check_input_contigs_loop_accepts filenames 0 ∅);
    [|done|done|set_solver|simpl; lia].
  unfold log, emit, add_logs. simpl.
  by rewrite !fmap_app, <- !app_assoc.
Qed.
End Acceptance.

(** X1.  The two input checks only read: whatever their outcome, they
    leave the file system and the random generator as they are and add
    nothing but log lines to the trace; and the outcome of
    [check_input_contigs] is the same in every world. *)
Theorem input_checks_are_read_only (c : Collaborators) (reads_file : string)
    (filenames : list string) (w : World) :
  (fs (check_input_reads c reads_file w).2 = fs w
   ∧ rng (check_input_reads c reads_file w).2 = rng w
   ∧ ∃ ms, trace (check_input_reads c reads_file w).2
           = trace w ++ (Log <$> ms))
  ∧ (fs (check_input_contigs c filenames w).2 = fs w
     ∧ rng (check_input_contigs c filenames w).2 = rng w
     ∧ ∃ ms, trace (check_input_contigs c filenames w).2
             = trace w ++ (Log <$> ms))
  ∧ ∀ w2, (check_input_contigs c filenames w2).1
          = (check_input_contigs c filenames w).1.
Proof.
  destruct (check_input_reads_cases c reads_file) as (o1 & ms1 & Hq1 & _).
  destruct (check_input_contigs_cases c filenames) as (o2 & ms2 & Hq2 & _).
  split; [|split].
  - split_and!; [by rewrite Hq1..|]. exists ms1. by rewrite Hq1.
  - split_and!; [by rewrite Hq2..|]. exists ms2. by rewrite Hq2.
  - intros w2. by rewrite !Hq2.
Qed.

(** X2.  [check_input_contigs] returns exactly for the lists of at least
    two and at most [MAX_INPUT_CONTIGS] files, at most 26, in which every
    file is in FASTA format with one record and the record names are
    pairwise distinct. *)
Theorem check_input_contigs_accepts (c : Collaborators)
    (filenames : list string) (w : World) :
  (check_input_contigs c filenames w).1 = Ok tt
  ↔ 2 ≤ length filenames
    ∧ length filenames ≤ MAX_INPUT_CONTIGS c
    ∧ length filenames ≤ 26
    ∧ Forall (single_fasta c) filenames
    ∧ NoDup (first_names c filenames).
Proof.
  split.
  - intros Hok.
    destruct (check_input_contigs c filenames w) as [o w'] eqn:Hrun.
    simpl in Hok. subst o.
    apply check_input_contigs_ok in Hrun as (? & ? & ? & ? & ?). done.
  - intros (H2 & Hmax & H26 & Hs & Hnd).
    by rewrite (accepted_contigs_run c filenames).
Qed.

Lemma check_input_contigs_accepts_witness :
  (check_input_contigs (two_contigs false) ["a.fasta"; "b.fasta"]
     empty_world).1 = Ok tt.
Proof.
  apply (check_input_contigs_accepts (two_contigs false)
           ["a.fasta"; "b.fasta"] empty_world).
  split_and!; [simpl; lia|simpl; lia|simpl; lia|repeat constructor|].
  apply (bool_decide_unpack _). by vm_compute.
Defined.

(** X3.  The letters run out before the ceiling does: with more than 26
    files (under a ceiling that allows them), of which the first 27 are good
    and have distinct record names, [check_input_contigs] does not exit with
    a message but is aborted by the [IndexError] of
    [string.ascii_uppercase[26]]. *)
Theorem twenty_seventh_file_has_no_letter (c : Collaborators)
    (filenames : list string) (w : World) :
  26 < length filenames →
  length filenames ≤ MAX_INPUT_CONTIGS c →
  Forall (single_fasta c) (take 27 filenames) →
  NoDup (first_names c (take 27 filenames)) →
  (check_input_contigs c filenames w).1 = Raise IndexError.
Proof.
  intros H26 Hmax Hs Hnd.
  destruct (lookup_lt_is_Some_2 filenames 26 H26) as [f Hf].
  rewrite (take_S_r _ _ _ Hf) in Hs, Hnd.
  apply Forall_app in Hs as [Hpre Hsf].
  apply Forall_singleton in Hsf as [Ht Hl].
  destruct (load_fasta c f) as [|r [|r' l]] eqn:Hr; try (simpl in Hl; lia).
  unfold first_names in Hnd. rewrite fmap_app in Hnd.
  apply NoDup_app in Hnd as (Hndpre & Hfresh & _).
  assert (loop_outcome c 0 filenames ∅ (Raise IndexError)) as Ho.
  { rewrite <- (take_drop 26 filenames), (drop_S _ _ _ Hf).
    apply loop_outcome_prefix; [done|done|set_solver| |].
    - rewrite length_take. lia.
    - eapply loop_index; [done|exact Hr| |rewrite length_take; lia].
      intros Hin. apply elem_of_union in Hin as [Hin|Hin]; [set_solver|].
      apply elem_of_list_to_set in Hin. apply (Hfresh _ Hin).
      simpl. rewrite Hr. by left. }
  destruct (check_input_contigs_loop_run c filenames _ ltac:(lia) Hmax Ho)
    as [ms Hq].
  by rewrite Hq.
Qed.

Lemma twenty_seventh_file_has_no_letter_witness :
  (check_input_contigs many_files_run (numbered_files 27) empty_world).1
  = Raise IndexError.
Proof.
  apply twenty_seventh_file_has_no_letter.
  - vm_compute. lia.
  - vm_compute. lia.
  - apply (bool_decide_unpack _). by vm_compute.
  - apply (bool_decide_unpack _). by vm_compute.
Defined.

Lemma contig_lines_lookup (c : Collaborators) (i j : nat)
    (filenames : list string) (f : string) :
  filenames !! j = Some f →
  contig_lines c i filenames !! j
  = Some (LogContig (letter (i + j)) f
            (default ("", "") (head (load_fasta c f))).1
            (String.length (default ("", "") (head (load_fasta c f))).2)).
Proof.
  revert i j. induction filenames as [|g rest IH]; intros i j Hj; [done|].
  destruct j as [|j]; simpl in *.
  - simplify_eq. by rewrite Nat.add_0_r.
  - rewrite <- Nat.add_succ_comm. by apply IH.
Qed.

(** X4.  What validation shows is what the loader does: a successful
    [check_input_contigs] logs the header, one line per file and a blank
    line, and the letter on the line of the [i]-th file is the key of the
    [i]-th entry of the contig set [load_contig_sequences] then returns,
    the length on that line being the length of the sequence of that
    entry. *)
Theorem validation_letters_are_labels (c : Collaborators)
    (filenames : list string) (w w' : World) :
  check_input_contigs c filenames w = (Ok tt, w') →
  trace w' = trace w ++ [Log LogInputContigs]
               ++ (Log <$> contig_lines c 0 filenames) ++ [Log LogBlank]
  ∧ ∃ contig_seqs,
      (∀ w2, load_contig_sequences c filenames w2 = (Ok contig_seqs, w2))
      ∧ ∀ i f, filenames !! i = Some f →
          ∃ l name seq,
            load_fasta c f = [(name, seq)]
            ∧ contig_lines c 0 filenames !! i
              = Some (LogContig l f name (String.length seq))
            ∧ contig_seqs !! i = Some (l, seq).
Proof.
  intros Hv.
  pose proof (λ w2, load_contig_sequences_validated c _ _ _ w2 Hv) as Hload.
  pose proof Hv as Hok.
  apply check_input_contigs_ok in Hok as (Hs & H2 & Hmax & H26 & Hnd).
  pose proof (accepted_contigs_run c filenames H2 Hmax H26 Hs Hnd)
    as Hq.
  destruct (quiet_outcome _ _ _ _ _ _ Hq Hv) as [_ ->]. split.
  - simpl. by rewrite !fmap_app.
  - exists (labelled c 0 filenames). split; [done|].
    intros i f Hf. rewrite Forall_forall in Hs.
    destruct (Hs f) as [_ H1]; [by eapply list_elem_of_lookup_2|].
    destruct (load_fasta c f) as [|[name seq] [|r' l]] eqn:Hr;
      try (simpl in H1; lia).
    exists (letter i), name, seq. split_and!; [done|..].
    + by rewrite (contig_lines_lookup c 0 i filenames f Hf), Hr.
    + by rewrite (labelled_lookup c 0 i filenames f Hf), Hr.
Qed.

Lemma validation_letters_are_labels_witness :
  ∃ contig_seqs,
    ∀ w2, load_contig_sequences (two_contigs false) ["a.fasta"; "b.fasta"] w2
          = (Ok contig_seqs, w2).
Proof.
  destruct (validation_letters_are_labels (two_contigs false)
              ["a.fasta"; "b.fasta"] empty_world
              (check_input_contigs (two_contigs false) ["a.fasta"; "b.fasta"]
                 empty_world).2)
    as (_ & cs & Hl & _).
  - by vm_compute.
  - exists cs. exact Hl.
Defined.

(** ** The loader without validation *)

Section Loader.
Context (c : Collaborators).

(** Files with one record each are passed over. *)
Lemma load_contig_sequences_loop_prefix (pre rest : list string) (i : nat)
    (acc : ContigSet) (w : World) :
  Forall (λ f, length (load_fasta c f) = 1) pre →
  i + length pre ≤ 26 →
  (∀ k, k ∈ dict_keys acc → ∃ j, j < i ∧ k = letter j) →
  load_contig_sequences_loop c i (pre ++ rest) acc w
  = load_contig_sequences_loop c (i + length pre) rest
      (acc ++ labelled c i pre) w.
Proof.
  revert i acc. induction pre as [|f pre IH]; intros i acc Hs Hi Hacc.
  { simpl. by rewrite Nat.add_0_r, app_nil_r. }
  apply Forall_cons in Hs as [Hl Hs]. simpl in Hi.
  change ((f :: pre) ++ rest) with (f :: (pre ++ rest)).
  rewrite load_contig_sequences_loop_cons.
  destruct (decide (i < 26)) as [Hi26|]; [|lia].
  destruct (load_fasta c f) as [|r [|r' l]] eqn:Hr; try (simpl in Hl; lia).
  rewrite dict_set_fresh.
  - rewrite IH; [|done|lia|].
    + simpl. rewrite Hr. simpl. rewrite <- app_assoc.
      by replace (S (i + length pre)) with (i + S (length pre)) by lia.
    + intros k Hk. unfold dict_keys in Hk. rewrite fmap_app in Hk.
      apply elem_of_app in Hk as [Hk|Hk].
      * destruct (Hacc k Hk) as (j & Hj & ->). exists j. split; [lia|done].
      * apply list_elem_of_singleton in Hk. exists i. split; [lia|done].
  - intros Hk. destruct (Hacc _ Hk) as (j & Hj & Heq).
    apply letter_inj in Heq; lia.
Qed.
End Loader.

(** X5.  [load_contig_sequences] on its own: it never changes the world;
    it returns exactly when every file has one record and there are at most
    26 files; the first file with no or several records, if it is among the
    first 26, fails the assertion; and a 27th file after 26 single-record
    files is an [IndexError].  The file type and the record names play no
    part. *)
Theorem loader_outcomes (c : Collaborators) (filenames : list string)
    (w : World) :
  (load_contig_sequences c filenames w).2 = w
  ∧ ((∃ contig_seqs, (load_contig_sequences c filenames w).1 = Ok contig_seqs)
     ↔ Forall (λ f, length (load_fasta c f) = 1) filenames
       ∧ length filenames ≤ 26)
  ∧ (∀ pre f post,
       filenames = pre ++ f :: post →
       Forall (λ f, length (load_fasta c f) = 1) pre →
       length pre < 26 →
       length (load_fasta c f) ≠ 1 →
       (load_contig_sequences c filenames w).1 = Raise AssertionError)
  ∧ (26 < length filenames →
     Forall (λ f, length (load_fasta c f) = 1) (take 26 filenames) →
     (load_contig_sequences c filenames w).1 = Raise IndexError).
Proof.
  assert (∀ k, k ∈ dict_keys [] → ∃ j, j < 0 ∧ k = letter j) as Hnil.
  { intros k Hk. by apply elem_of_nil in Hk. }
  split_and!.
  - destruct (load_contig_sequences_pure c filenames) as [o Ho].
    by rewrite Ho.
  - split.
    + intros [cs Hcs].
      destruct (load_contig_sequences c filenames w) as [o w'] eqn:Hrun.
      simpl in Hcs. subst o.
      apply load_contig_sequences_inv in Hrun as (_ & ? & ?). done.
    + intros [Hs H26]. exists (labelled c 0 filenames).
      unfold load_contig_sequences.
      by rewrite load_contig_sequences_loop_run.
  - intros pre f post -> Hs Hlen Hf. unfold load_contig_sequences.
    rewrite load_contig_sequences_loop_prefix; [|done|simpl; lia|done].
    rewrite load_contig_sequences_loop_cons.
    destruct (decide (0 + length pre < 26)) as [Hlt|]; [|simpl in *; lia].
    destruct (load_fasta c f) as [|r [|r' l]]; [done| |done].
    by destruct Hf.
  - intros H26 Hs. unfold load_contig_sequences.
    destruct (lookup_lt_is_Some_2 filenames 26 H26) as [f Hf].
    rewrite <- (take_drop 26 filenames), (drop_S _ _ _ Hf).
    rewrite load_contig_sequences_loop_prefix;
      [|done|rewrite length_take; lia|done].
    rewrite load_contig_sequences_loop_cons.
    destruct (decide (0 + length (take 26 filenames) < 26)) as [Hlt|]; [|done].
    rewrite length_take in Hlt. lia.
Qed.

Lemma loader_outcomes_witness :
  (load_contig_sequences second_file_bad_run ["a.fasta"; "b.fasta"]
     empty_world).1 = Raise AssertionError.
Proof.
  destruct (loader_outcomes second_file_bad_run ["a.fasta"; "b.fasta"]
              empty_world) as (_ & _ & Hbad & _).
  apply (Hbad ["a.fasta"] "b.fasta" []); [reflexivity| |simpl; lia|].
  - repeat constructor.
  - simpl. lia.
Defined.

(** ** Saving and the file system *)

Lemma update_file_is_dir (f : option string → string) (p : Path) (n : node) :
  path_is_dir p n = true → update_file f p n = inl IsADirectoryError.
Proof.
  unfold path_is_dir. revert n.
  induction p as [|x p IH]; intros n H; simpl in *.
  { by destruct n. }
  destruct n as [s|es]; [done|].
  destruct (es !! x) as [child|]; [|done]. by rewrite (IH child H).
Qed.

Lemma update_file_no_parent (f : option string → string) (d : Path)
    (name : string) (n : node) :
  path_is_dir d n = false →
  ∃ e, update_file f (d ++ [name]) n = inl e
       ∧ (e = FileNotFoundError ∨ e = NotADirectoryError).
Proof.
  unfold path_is_dir. revert n.
  induction d as [|x d IH]; intros n H; simpl in *.
  { destruct n; [eauto|done]. }
  destruct n as [s|es]; [eauto|].
  destruct (es !! x) as [child|].
  - destruct (IH child H) as (e & -> & He). eauto.
  - destruct (d ++ [name]) eqn:Hd; [by destruct d|eauto].
Qed.

Lemma update_file_in_dir (f : option string → string) (d : Path)
    (name : string) (n : node) :
  path_is_dir d n = true → path_is_dir (d ++ [name]) n = false →
  ∃ n', update_file f (d ++ [name]) n = inr n'.
Proof.
  unfold path_is_dir. revert n.
  induction d as [|x d IH]; intros n Hd Hp; simpl in *.
  - destruct n as [s|es]; [done|].
    destruct (es !! name) as [[s|es']|]; [eauto|done|eauto].
  - destruct n as [s|es]; [done|].
    destruct (es !! x) as [child|]; [|done].
    destruct (IH child Hd Hp) as [n' ->]. eauto.
Qed.

(** An update of the file [p] changes no other regular file. *)
Lemma update_file_other (f : option string → string) (p q : Path)
    (n n' : node) (s : string) :
  update_file f p n = inr n' → q ≠ p →
  stat q n = inr (RegFile s) → stat q n' = inr (RegFile s).
Proof.
  revert q n n'. induction p as [|x p IH]; intros q n n' Hu Hne Hq; simpl in Hu.
  { destruct n as [old|es]; [|done]. destruct q; [done|]. done. }
  destruct n as [old|es]; [done|].
  destruct q as [|y q]; [done|]. simpl in Hq.
  destruct (es !! y) as [cq|] eqn:Hy; [|done].
  destruct (decide (x = y)) as [->|Hxy].
  - rewrite Hy in Hu.
    destruct (update_file f p cq) as [e|child'] eqn:Hc; simplify_eq.
    simpl. rewrite lookup_insert_eq. eapply IH; eauto. congruence.
  - destruct (es !! x) as [child|];
      [destruct (update_file f p child)|destruct p]; simplify_eq;
      simpl; by rewrite lookup_insert_ne, Hy.
Qed.

(** It removes no directory. *)
Lemma update_file_keeps_dirs (f : option string → string) (p q : Path)
    (n n' : node) :
  update_file f p n = inr n' →
  path_is_dir q n = true → path_is_dir q n' = true.
Proof.
  unfold path_is_dir.
  revert q n n'. induction p as [|x p IH]; intros q n n' Hu Hq; simpl in Hu.
  { destruct n as [old|es]; [|done]. by destruct q. }
  destruct n as [old|es]; [done|].
  destruct q as [|y q].
  { destruct (es !! x) as [child|];
      [destruct (update_file f p child)|destruct p]; by simplify_eq. }
  simpl in Hq. destruct (es !! y) as [cq|] eqn:Hy; [|done].
  destruct (decide (x = y)) as [->|Hxy].
  - rewrite Hy in Hu.
    destruct (update_file f p cq) as [e|child'] eqn:Hc; simplify_eq.
    simpl. rewrite lookup_insert_eq. eapply IH; eauto.
  - destruct (es !! x) as [child|];
      [destruct (update_file f p child)|destruct p]; simplify_eq;
      simpl; by rewrite lookup_insert_ne, Hy.
Qed.

Lemma fasta_text_inj (s1 s2 : ContigSet) :
  no_newlines s1 → no_newlines s2 → fasta_text s1 = fasta_text s2 → s1 = s2.
Proof.
  intros H1 H2 Heq. apply (f_equal lines) in Heq.
  rewrite !lines_fasta_text in Heq by done. clear H1 H2.
  revert s2 Heq. induction s1 as [|[n1 q1] s1 IH]; intros [|[n2 q2] s2] Heq;
    simpl in Heq; try done.
  injection Heq as Hn Hq Hrest.
  change (n1 = n2) in Hn. subst. f_equal. by apply IH.
Qed.

(** X6.  [save_seqs_to_fasta] creates the file but never its directory.
    When the directory of the file does not exist or is not a directory, or
    when the file name is taken by a directory, the [open] raises, the
    saving line has been logged and nothing is written; in every other case
    the call returns. *)
Theorem save_needs_its_directory (seqs : ContigSet) (d : Path) (name : string)
    (w : World) :
  (path_is_dir d (fs w) = false →
   ∃ e, save_seqs_to_fasta seqs (d // name) w
        = (Raise e, add_logs [LogSaving (d // name)] w)
        ∧ (e = FileNotFoundError ∨ e = NotADirectoryError))
  ∧ (path_is_dir (d // name) (fs w) = true →
     save_seqs_to_fasta seqs (d // name) w
     = (Raise IsADirectoryError, add_logs [LogSaving (d // name)] w))
  ∧ (path_is_dir d (fs w) = true → path_is_dir (d // name) (fs w) = false →
     (save_seqs_to_fasta seqs (d // name) w).1 = Ok tt).
Proof.
  rewrite save_seqs_to_fasta_run. unfold path_join. split_and!.
  - intros Hd.
    destruct (update_file_no_parent (λ _, fasta_text seqs) d name _ Hd)
      as (e & -> & He). eauto.
  - intros Hp. by rewrite update_file_is_dir.
  - intros Hd Hp.
    by destruct (update_file_in_dir (λ _, fasta_text seqs) d name _ Hd Hp)
      as [n' ->].
Qed.

Lemma save_needs_its_directory_witness :
  ∃ e, save_seqs_to_fasta [("A", "ACGT")] (["out"] // "01_all_seqs.fasta")
         empty_world
       = (Raise e,
          add_logs [LogSaving (["out"] // "01_all_seqs.fasta")] empty_world).
Proof.
  destruct (save_needs_its_directory [("A", "ACGT")] ["out"]
              "01_all_seqs.fasta" empty_world) as (Hnone & _).
  destruct (Hnone eq_refl) as (e & He & _). exists e. exact He.
Defined.

(** X7.  Saving replaces: after one contig set was saved to a file, saving
    another to the same file succeeds and leaves the file system as if only
    the second had been saved; saving the same set again changes nothing. *)
Theorem save_replaces_the_file (s1 s2 : ContigSet) (p : Path) (w : World) :
  (save_seqs_to_fasta s1 p w).1 = Ok tt →
  (save_seqs_to_fasta s2 p (save_seqs_to_fasta s1 p w).2).1 = Ok tt
  ∧ fs (save_seqs_to_fasta s2 p (save_seqs_to_fasta s1 p w).2).2
    = fs (save_seqs_to_fasta s2 p w).2
  ∧ fs (save_seqs_to_fasta s1 p (save_seqs_to_fasta s1 p w).2).2
    = fs (save_seqs_to_fasta s1 p w).2.
Proof.
  rewrite !save_seqs_to_fasta_run.
  destruct (update_file (λ _, fasta_text s1) p (fs w)) as [e|n1] eqn:H1;
    [done|].
  intros _. simpl.
  rewrite !(update_file_twice _ _ _ _ _ H1). simpl.
  rewrite H1.
  destruct (update_file_ok _ (λ _, fasta_text s2) _ _ _ H1) as [n2 H2].
  by rewrite H2.
Qed.

Lemma save_replaces_the_file_witness :
  fs (save_seqs_to_fasta [("B", "GG")] ["all.fasta"]
        (save_seqs_to_fasta [("A", "ACGT")] ["all.fasta"] empty_world).2).2
  = fs (save_seqs_to_fasta [("B", "GG")] ["all.fasta"] empty_world).2.
Proof.
  destruct (save_replaces_the_file [("A", "ACGT")] [("B", "GG")] ["all.fasta"]
              empty_world) as (_ & H & _); [by vm_compute|exact H].
Defined.

(** X8.  Saving touches one file only: every other regular file keeps its
    content, and every directory stays a directory, whether the call
    succeeds or not. *)
Theorem save_keeps_other_files (seqs : ContigSet) (p : Path) (w : World) :
  (∀ q s, q ≠ p → stat q (fs w) = inr (RegFile s) →
          stat q (fs (save_seqs_to_fasta seqs p w).2) = inr (RegFile s))
  ∧ (∀ q, path_is_dir q (fs w) = true →
          path_is_dir q (fs (save_seqs_to_fasta seqs p w).2) = true).
Proof.
  rewrite save_seqs_to_fasta_run.
  destruct (update_file (λ _, fasta_text seqs) p (fs w)) as [e|n1] eqn:H1;
    simpl; [done|].
  split.
  - intros q s Hne Hq. by eapply update_file_other.
  - intros q Hq. by eapply update_file_keeps_dirs.
Qed.

Lemma save_keeps_other_files_witness :
  stat ["a"] (fs (save_seqs_to_fasta [("A", "ACGT")] ["b"] world_with_file).2)
  = inr (RegFile "text").
Proof.
  destruct (save_keeps_other_files [("A", "ACGT")] ["b"] world_with_file)
    as [Hfiles _].
  apply Hfiles; [done|reflexivity].
Defined.

(** X9.  Nothing is lost in the file: two contig sets (names and sequences
    free of line feeds) that are saved to the same file and leave the same
    content are equal, entry by entry and in the same order. *)
Theorem saved_file_determines_contigs (s1 s2 : ContigSet) (p : Path)
    (w : World) :
  no_newlines s1 → no_newlines s2 →
  (save_seqs_to_fasta s1 p w).1 = Ok tt →
  stat p (fs (save_seqs_to_fasta s1 p w).2)
  = stat p (fs (save_seqs_to_fasta s2 p w).2) →
  s1 = s2.
Proof.
  intros Hn1 Hn2. rewrite !save_seqs_to_fasta_run.
  destruct (update_file (λ _, fasta_text s1) p (fs w)) as [e|n1] eqn:H1;
    [done|].
  destruct (update_file_ok _ (λ _, fasta_text s2) _ _ _ H1) as [n2 H2].
  rewrite H2. simpl. intros _ Heq.
  destruct (update_file_stat _ _ _ _ H1) as [o1 Ho1].
  destruct (update_file_stat _ _ _ _ H2) as [o2 Ho2].
  rewrite Ho1, Ho2 in Heq. injection Heq as Heq.
  by apply fasta_text_inj.
Qed.

Lemma saved_file_determines_contigs_witness :
  [("A", "ACGT")] = [("A", "ACGT")].
Proof.
  apply (saved_file_determines_contigs [("A", "ACGT")] [("A", "ACGT")]
           ["all.fasta"] empty_world).
  - repeat constructor.
  - repeat constructor.
  - by vm_compute.
  - reflexivity.
Defined.

(** ** The output directory *)

Lemma stat_parent (d : Path) (name : string) (n x : node) :
  stat (d ++ [name]) n = inr x → path_is_dir d n = true.
Proof.
  unfold path_is_dir. revert n.
  induction d as [|y d IH]; intros n H; simpl in *.
  - by destruct n.
  - destruct n as [s|es]; [done|].
    destruct (es !! y) as [child|]; [eauto|done].
Qed.

(** A check of the output directory that returns leaves a directory, and
    keeps every regular file. *)
Lemma check_output_directory_ok (directory : Path) (w w1 : World) :
  check_output_directory directory w = (Ok tt, w1) →
  path_is_dir directory (fs w1) = true
  ∧ rng w1 = rng w
  ∧ (path_is_dir directory (fs w) = true
     ∨ stat directory (fs w) = inl FileNotFoundError)
  ∧ ∀ q s, stat q (fs w) = inr (RegFile s) → stat q (fs w1) = inr (RegFile s).
Proof.
  intros Hrun.
  destruct (stat directory (fs w)) as [e|[s|es]] eqn:Hst.
  - rewrite check_output_directory_absent in Hrun
      by (unfold path_exists; by rewrite Hst).
    destruct (mkdir_parents directory (fs w)) as [e'|n'] eqn:Hm; [done|].
    injection Hrun as <-. simpl. split_and!.
    + by eapply mkdir_parents_dirs.
    + done.
    + right. destruct (stat_error _ _ _ Hst) as [->| ->]; [done|].
      by rewrite (mkdir_parents_blocked _ _ Hst) in Hm.
    + intros q s Hq. by eapply mkdir_parents_keeps_files.
  - rewrite check_output_directory_file in Hrun
      by (unfold path_is_file; by rewrite Hst).
    done.
  - assert (path_is_dir directory (fs w) = true) as Hd
      by (unfold path_is_dir; by rewrite Hst).
    rewrite check_output_directory_dir in Hrun by done.
    injection Hrun as <-. simpl. split_and!; [done|done|by left|done].
Qed.

(** X10.  Running into an existing output directory is allowed: once
    [check_output_directory] has returned, a second call on the same path
    returns too, logs that the directory exists and leaves the file system
    as it is. *)
Theorem rerun_into_existing_directory (directory : Path) (w w1 : World) :
  check_output_directory directory w = (Ok tt, w1) →
  check_output_directory directory w1
  = (Ok tt, add_logs [LogOutDirExists directory; LogBlank] w1).
Proof.
  intros Hrun. apply check_output_directory_ok in Hrun as (Hd & _).
  by apply check_output_directory_dir.
Qed.

Lemma rerun_into_existing_directory_witness :
  (check_output_directory ["out"; "run"]
     (check_output_directory ["out"; "run"] empty_world).2).1 = Ok tt.
Proof.
  rewrite (rerun_into_existing_directory ["out"; "run"] empty_world
             (check_output_directory ["out"; "run"] empty_world).2).
  - reflexivity.
  - by vm_compute.
Defined.

(** X11.  The check prepares the saving: once [check_output_directory]
    has returned, [save_seqs_to_fasta] into that directory returns for
    every file name that is not taken by a directory, and the file then
    holds the records. *)
Theorem save_into_checked_directory (directory : Path) (name : string)
    (seqs : ContigSet) (w w1 : World) :
  check_output_directory directory w = (Ok tt, w1) →
  path_is_dir (directory // name) (fs w1) = false →
  (save_seqs_to_fasta seqs (directory // name) w1).1 = Ok tt
  ∧ stat (directory // name)
      (fs (save_seqs_to_fasta seqs (directory // name) w1).2)
    = inr (RegFile (fasta_text seqs)).
Proof.
  intros Hrun Hp. apply check_output_directory_ok in Hrun as (Hd & _).
  rewrite save_seqs_to_fasta_run. unfold path_join in *.
  destruct (update_file_in_dir (λ _, fasta_text seqs) directory name _ Hd Hp)
    as [n' Hn'].
  rewrite Hn'. simpl. split; [done|].
  destruct (update_file_stat _ _ _ _ Hn') as [old Hold]. exact Hold.
Qed.

Lemma save_into_checked_directory_witness :
  (save_seqs_to_fasta [("A", "ACGT")] (["out"] // "01_all_seqs.fasta")
     (check_output_directory ["out"] empty_world).2).1 = Ok tt.
Proof.
  destruct (save_into_checked_directory ["out"] "01_all_seqs.fasta"
              [("A", "ACGT")] empty_world
              (check_output_directory ["out"] empty_world).2)
    as [Hok _]; [by vm_compute|reflexivity|exact Hok].
Defined.

Lemma check_output_directory_returns (directory : Path) (w : World) :
  (check_output_directory directory w).1 = Ok tt
  ↔ path_is_dir directory (fs w) = true
    ∨ stat directory (fs w) = inl FileNotFoundError.
Proof.
  split.
  - intros Hok.
    destruct (check_output_directory directory w) as [o w1] eqn:Hrun.
    simpl in Hok. subst o.
    by apply check_output_directory_ok in Hrun as (_ & _ & ? & _).
  - intros [Hd|Hm].
    + by rewrite check_output_directory_dir.
    + rewrite check_output_directory_absent
        by (unfold path_exists; by rewrite Hm).
      destruct (mkdir_parents_missing _ _ Hm) as [n' Hn']. by rewrite Hn'.
Qed.

(** The three checks in sequence. *)
Lemma check_inputs_and_requirements_run (c : Collaborators) (args : Args)
    (o1 o2 : Outcome unit) (ms1 ms2 : list LogMsg) (w : World) :
  quiet (check_input_reads c (reads args)) o1 ms1 →
  quiet (check_input_contigs c (contigs args)) o2 ms2 →
  check_inputs_and_requirements c args w
  = match o1 with
    | Ok _ =>
        match o2 with
        | Ok _ => check_output_directory (out_dir args)
                    (add_logs (ms1 ++ ms2) w)
        | Exit e => (Exit e, add_logs (ms1 ++ ms2) w)
        | Raise e => (Raise e, add_logs (ms1 ++ ms2) w)
        end
    | Exit e => (Exit e, add_logs ms1 w)
    | Raise e => (Raise e, add_logs ms1 w)
    end.
Proof.
  intros Hq1 Hq2.
  unfold check_inputs_and_requirements, bind, check_required_software, ret.
  rewrite Hq1. destruct o1 as [[]|e|e]; [|done..].
  rewrite Hq2, add_logs_app. destruct o2 as [[]|e|e]; [|done..].
  by destruct (check_output_directory _ _) as [[[]|e|e] w3].
Qed.

(** X12.  [check_inputs_and_requirements] returns exactly when the reads
    are in FASTQ format, the contig files are accepted and the output path
    is a directory or can be created; it then leaves the output path a
    directory, every regular file in place and the random generator as it
    was. *)
Theorem validation_succeeds_exactly (c : Collaborators) (args : Args)
    (w : World) :
  ((check_inputs_and_requirements c args w).1 = Ok tt
   ↔ get_sequence_file_type c (reads args) = "FASTQ"
     ∧ (check_input_contigs c (contigs args) w).1 = Ok tt
     ∧ (path_is_dir (out_dir args) (fs w) = true
        ∨ stat (out_dir args) (fs w) = inl FileNotFoundError))
  ∧ ((check_inputs_and_requirements c args w).1 = Ok tt →
     path_is_dir (out_dir args)
       (fs (check_inputs_and_requirements c args w).2) = true
     ∧ rng (check_inputs_and_requirements c args w).2 = rng w
     ∧ ∀ q s, stat q (fs w) = inr (RegFile s) →
              stat q (fs (check_inputs_and_requirements c args w).2)
              = inr (RegFile s)).
Proof.
  destruct (check_input_reads_cases c (reads args)) as (o1 & ms1 & Hq1 & Ho1).
  destruct (check_input_contigs_cases c (contigs args))
    as (o2 & ms2 & Hq2 & _).
  rewrite (check_inputs_and_requirements_run c args o1 o2 ms1 ms2 w Hq1 Hq2).
  rewrite Hq2. simpl.
  destruct Ho1 as [[-> Hr]|[-> Hr]].
  - destruct o2 as [[]|e|e].
    + split.
      * rewrite check_output_directory_returns. simpl. naive_solver.
      * intros Hok.
        destruct (check_output_directory (out_dir args)
                    (add_logs (ms1 ++ ms2) w)) as [o w3] eqn:Hrun.
        simpl in Hok. subst o.
        apply check_output_directory_ok in Hrun as (? & ? & _ & ?). done.
    + simpl. split; [|done]. naive_solver.
    + simpl. split; [|done]. naive_solver.
  - simpl. split; [|done]. naive_solver.
Qed.

Lemma validation_succeeds_exactly_witness :
  path_is_dir ["out"]
    (fs (check_inputs_and_requirements (two_contigs false)
           (args_of (mkNamespace ["a.fasta"; "b.fasta"] "reads.fastq" ["out"]
                       4 false)) empty_world).2) = true.
Proof.
  destruct (validation_succeeds_exactly (two_contigs false)
              (args_of (mkNamespace ["a.fasta"; "b.fasta"] "reads.fastq"
                          ["out"] 4 false)) empty_world) as [_ Hpost].
  destruct Hpost as (Hd & _); [by vm_compute|exact Hd].
Defined.

(** ** The order of the stages *)

Lemma stage_calls_app (a b : list Event) :
  stage_calls (a ++ b) = stage_calls a ++ stage_calls b.
Proof. apply omap_app. Qed.

Lemma stage_calls_none (evs : list Event) :
  Forall (λ e, is_stage_event e = false) evs → stage_calls evs = [].
Proof.
  induction 1 as [|e evs He _ IH]; [done|].
  change (stage_calls (e :: evs)) with (stage_calls ([e] ++ evs)).
  rewrite stage_calls_app, IH. by destruct e.
Qed.

Section Order.
Context {A B : Type}.

Lemma calls_stages_emits (m : M A) :
  emits (λ e, is_stage_event e = false) m → calls_stages [] m.
Proof.
  intros Hm w. destruct (Hm w) as (evs & Ht & HP). exists evs.
  rewrite (stage_calls_none _ HP). done.
Qed.

Lemma calls_stages_bind (l1 l2 : list Stage) (m : M A) (k : A → M B) :
  calls_stages l1 m → (∀ a, calls_stages l2 (k a)) →
  calls_stages (l1 ++ l2) (bind m k).
Proof.
  intros Hm Hk w. unfold bind.
  destruct (Hm w) as (evs1 & Ht1 & Hpre1 & Hall1).
  destruct (m w) as [[a|e|e] w1]; simpl in *.
  - destruct (Hk a w1) as (evs2 & Ht2 & Hpre2 & Hall2).
    exists (evs1 ++ evs2). rewrite Ht2, Ht1, app_assoc, stage_calls_app.
    rewrite (Hall1 a eq_refl). split_and!; [done|by apply prefix_app|].
    intros b Hb. by rewrite (Hall2 b Hb).
  - exists evs1. split_and!; [done|by apply prefix_app_r|done].
  - exists evs1. split_and!; [done|by apply prefix_app_r|done].
Qed.

Lemma calls_stages_skip (l : list Stage) (m : M A) (k : A → M B) :
  emits (λ e, is_stage_event e = false) m → (∀ a, calls_stages l (k a)) →
  calls_stages l (bind m k).
Proof.
  intros Hm Hk. apply (calls_stages_bind [] l); [|done].
  by apply calls_stages_emits.
Qed.

Lemma calls_stages_call (st : Stage) (seqs : ContigSet) (body : Ext A) :
  calls_stages [st] (call st seqs body).
Proof.
  intros w. unfold call. destruct (body (rng w)) as [o r]. simpl.
  exists [Run st seqs]. done.
Qed.

Lemma calls_stages_then (st : Stage) (seqs : ContigSet) (body : Ext A)
    (l : list Stage) (k : A → M B) :
  (∀ a, calls_stages l (k a)) →
  calls_stages (st :: l) (bind (call st seqs body) k).
Proof.
  intros Hk. apply (calls_stages_bind [st] l); [|done].
  apply calls_stages_call.
Qed.
End Order.

Lemma emits_random_seed (c : Collaborators) (P : Event → Prop) (n : Z) :
  P (Seed n) → emits P (random_seed c n).
Proof. intros HP w. exists [Seed n]. split; [done|]. by constructor. Qed.

Lemma normalise_phase_stages (c : Collaborators) (args : Args) :
  calls_stages
    ([InitialSanityCheck; GetStartingSeq]
       ++ (if circular args then [Circularise; RotateToStartingSeq] else []))
    (normalise_phase c args).
Proof.
  unfold normalise_phase.
  apply calls_stages_skip; [by apply emits_random_seed|intros _].
  apply calls_stages_skip; [by apply emits_welcome_message|intros _].
  apply calls_stages_skip;
    [by apply emits_check_inputs_and_requirements|intros _].
  apply calls_stages_skip; [apply emits_load_contig_sequences|intros seqs].
  simpl. apply calls_stages_then. intros _.
  apply calls_stages_then. intros r. cbv zeta.
  destruct (circular args).
  - apply calls_stages_then. intros s. apply calls_stages_call.
  - apply calls_stages_emits, emits_ret.
Qed.

Lemma output_phase_stages (c : Collaborators) (args : Args) (seqs : ContigSet) :
  calls_stages [GetPerBaseScores; GetPairwiseAlignments; GetConsensusSeq]
    (output_phase c args seqs).
Proof.
  unfold output_phase.
  apply calls_stages_skip; [by apply emits_save_seqs_to_fasta|intros _].
  apply calls_stages_then. intros scores.
  apply calls_stages_then. intros alns.
  change [GetConsensusSeq] with ([GetConsensusSeq] ++ []).
  apply calls_stages_bind; [apply calls_stages_call|intros cons].
  by apply calls_stages_emits, emits_save_seqs_to_fasta.
Qed.

Section Failure.
Context (c : Collaborators) (args : Args).

Lemma stops_at_failure_emits {A} (m : M A) :
  emits (λ e, is_stage_event e = false) m → stops_at_failure c args m.
Proof.
  intros Hm w. destruct (Hm w) as (evs & Ht & HP). exists evs.
  split; [done|]. intros evs1 st seqs evs2 -> _.
  apply Forall_app in HP as [_ HP]. by apply Forall_cons in HP as [HP _].
Qed.

Lemma stops_at_failure_call {A} (st : Stage) (seqs : ContigSet)
    (body : Ext A) :
  (∀ r a r', body r = (Ok a, r') → stage_returns c args st seqs) →
  stops_at_failure c args (call st seqs body).
Proof.
  intros Hb w. unfold call. destruct (body (rng w)) as [o r'] eqn:Hbody.
  simpl. exists [Run st seqs]. split; [done|].
  intros evs1 st' seqs' evs2 Heq Hcond.
  destruct evs1 as [|e evs1]; simpl in Heq.
  - injection Heq as <- <- <-.
    destruct Hcond as [Hne|[a ->]]; [done|]. by eapply Hb.
  - injection Heq as _ Heq. by destruct evs1.
Qed.

Lemma stops_at_failure_bind {A B} (m : M A) (k : A → M B) :
  stops_at_failure c args m → (∀ a, stops_at_failure c args (k a)) →
  stops_at_failure c args (bind m k).
Proof.
  intros Hm Hk w. unfold bind.
  destruct (Hm w) as (evs1 & Ht1 & H1).
  destruct (m w) as [[a|e|e] w1]; simpl in *.
  - destruct (Hk a w1) as (evs2 & Ht2 & H2).
    exists (evs1 ++ evs2). split; [by rewrite Ht2, Ht1, app_assoc|].
    intros l1 st seqs l2 Heq Hcond.
    apply app_eq_app in Heq as [l [[Hl1 Hl2]|[Hl1 Hl2]]].
    + destruct l as [|e l]; simpl in Hl2.
      * apply (H2 [] st seqs l2); [by rewrite <- Hl2|done].
      * injection Hl2 as <- Hl2.
        apply (H1 l1 st seqs l); [done|]. right. by exists a.
    + by apply (H2 l st seqs l2).
  - exists evs1. split; [done|]. intros l1 st seqs l2 Heq Hcond.
    apply (H1 l1 st seqs l2 Heq). destruct Hcond as [?|[a ?]]; [by left|done].
  - exists evs1. split; [done|]. intros l1 st seqs l2 Heq Hcond.
    apply (H1 l1 st seqs l2 Heq). destruct Hcond as [?|[a ?]]; [by left|done].
Qed.

Lemma stops_at_failure_skip {A B} (m : M A) (k : A → M B) :
  emits (λ e, is_stage_event e = false) m →
  (∀ a, stops_at_failure c args (k a)) →
  stops_at_failure c args (bind m k).
Proof.
  intros Hm Hk. apply stops_at_failure_bind; [|done].
  by apply stops_at_failure_emits.
Qed.

Lemma stops_at_failure_then {A B} (st : Stage) (seqs : ContigSet)
    (body : Ext A) (k : A → M B) :
  (∀ r a r', body r = (Ok a, r') → stage_returns c args st seqs) →
  (∀ a, stops_at_failure c args (k a)) →
  stops_at_failure c args (bind (call st seqs body) k).
Proof.
  intros Hb Hk. apply stops_at_failure_bind; [|done].
  by apply stops_at_failure_call.
Qed.

Lemma normalise_phase_stops :
  stops_at_failure c args (normalise_phase c args).
Proof.
  unfold normalise_phase.
  apply stops_at_failure_skip; [by apply emits_random_seed|intros _].
  apply stops_at_failure_skip; [by apply emits_welcome_message|intros _].
  apply stops_at_failure_skip;
    [by apply emits_check_inputs_and_requirements|intros _].
  apply stops_at_failure_skip; [apply emits_load_contig_sequences|intros seqs].
  apply stops_at_failure_then; [by simpl; eauto|intros _].
  apply stops_at_failure_then; [by simpl; eauto|intros r]. cbv zeta.
  destruct (circular args).
  - apply stops_at_failure_then; [by simpl; eauto|intros s].
    apply stops_at_failure_call. simpl. eauto 6.
  - apply stops_at_failure_emits, emits_ret.
Qed.

Lemma output_phase_stops (seqs : ContigSet) :
  stops_at_failure c args (output_phase c args seqs).
Proof.
  unfold output_phase.
  apply stops_at_failure_skip; [by apply emits_save_seqs_to_fasta|intros _].
  apply stops_at_failure_then; [by simpl; eauto|intros scores].
  apply stops_at_failure_then; [by simpl; eauto|intros alns].
  apply stops_at_failure_then; [simpl; eauto 7|intros cons].
  by apply stops_at_failure_emits, emits_save_seqs_to_fasta.
Qed.
End Failure.

Lemma pipeline_stages_NoDup (circular : bool) :
  NoDup (pipeline_stages circular).
Proof.
  apply (bool_decide_unpack _). by destruct circular; vm_compute.
Qed.

(** X13.  The stages run in the order of the text of [main], each at most
    once: in every run the stages called are an initial part of
    [initial_sanity_check], [get_starting_seq], ([circularise],
    [rotate_to_starting_seq] when circular,) [get_per_base_scores],
    [get_pairwise_alignments], [get_consensus_seq], with no stage twice; a
    run that returns has called them all.  A failure of a stage is not
    caught: whenever a stage call is followed by another event of the run,
    or the run returns, that stage had returned a value on the contig set
    it was called on; so a stage that returns no value on it is the last
    thing the run does. *)
Theorem stages_run_in_order (c : Collaborators) (argv : list string)
    (ns : Namespace) (w : World) :
  parse_args c argv = inr ns →
  ∃ evs,
    trace (main c argv w).2 = trace w ++ evs
    ∧ stage_calls evs `prefix_of` pipeline_stages (negb (ns_not_circular ns))
    ∧ ((main c argv w).1 = Ok tt →
       stage_calls evs = pipeline_stages (negb (ns_not_circular ns)))
    ∧ NoDup (stage_calls evs)
    ∧ (∀ evs1 st seqs evs2,
         evs = evs1 ++ Run st seqs :: evs2 →
         evs2 ≠ [] ∨ (main c argv w).1 = Ok tt →
         stage_returns c (args_of ns) st seqs)
    ∧ (∀ evs1 st seqs evs2,
         evs = evs1 ++ Run st seqs :: evs2 →
         ¬ stage_returns c (args_of ns) st seqs →
         evs2 = [] ∧ (main c argv w).1 ≠ Ok tt).
Proof.
  intros Hp. rewrite (main_phases c _ _ _ Hp).
  assert (calls_stages (pipeline_stages (negb (ns_not_circular ns)))
            (bind (normalise_phase c (args_of ns))
               (output_phase c (args_of ns)))) as Hcalls.
  { unfold pipeline_stages. rewrite app_assoc.
    apply calls_stages_bind; [apply normalise_phase_stages|].
    intros seqs. apply output_phase_stages. }
  assert (stops_at_failure c (args_of ns)
            (bind (normalise_phase c (args_of ns))
               (output_phase c (args_of ns)))) as Hstops.
  { apply stops_at_failure_bind; [apply normalise_phase_stops|].
    intros seqs. apply output_phase_stops. }
  destruct (Hcalls w) as (evs & Ht & Hpre & Hall).
  destruct (Hstops w) as (evs' & Ht' & Hfail).
  assert (evs' = evs) as ->.
  { rewrite Ht in Ht'. by apply app_inv_head in Ht'. }
  assert (∀ evs1 st seqs evs2,
            evs = evs1 ++ Run st seqs :: evs2 →
            evs2 ≠ []
            ∨ (bind (normalise_phase c (args_of ns))
                 (output_phase c (args_of ns)) w).1 = Ok tt →
            stage_returns c (args_of ns) st seqs) as Hret.
  { intros evs1 st seqs evs2 Heq Hcond. apply (Hfail evs1 st seqs evs2 Heq).
    destruct Hcond as [?|Hok]; [by left|right; by exists tt]. }
  exists evs. split_and!; [done|done| | |done|].
  - intros Hok. by apply (Hall tt).
  - destruct Hpre as [k Hk].
    pose proof (pipeline_stages_NoDup (negb (ns_not_circular ns))) as Hnd.
    rewrite Hk in Hnd. by apply NoDup_app in Hnd as [Hnd _].
  - intros evs1 st seqs evs2 Heq Hno. split.
    + destruct evs2 as [|e evs2]; [done|]. destruct Hno.
      apply (Hret evs1 st seqs (e :: evs2) Heq). by left.
    + intros Hok. apply Hno. apply (Hret evs1 st seqs evs2 Heq). by right.
Qed.

Lemma stages_run_in_order_witness :
  (∃ evs,
     trace (main (two_contigs false) [] empty_world).2
     = trace empty_world ++ evs
     ∧ stage_calls evs = pipeline_stages true)
  ∧ (¬ stage_returns failing_stage_run
         (args_of (mkNamespace ["a.fasta"; "b.fasta"] "reads.fastq" ["out"]
                     4 false))
         Circularise [("A", "ACGT"); ("B", "ACGT")]
     ∧ last (trace (main failing_stage_run [] empty_world).2)
       = Some (Run Circularise [("A", "ACGT"); ("B", "ACGT")])
     ∧ (main failing_stage_run [] empty_world).1 ≠ Ok tt).
Proof.
  split.
  - destruct (stages_run_in_order (two_contigs false) []
                (mkNamespace ["a.fasta"; "b.fasta"] "reads.fastq" ["out"] 4
                   false)
                empty_world eq_refl) as (evs & Ht & _ & Hall & _).
    exists evs. split; [exact Ht|]. apply Hall. by vm_compute.
  - assert (¬ stage_returns failing_stage_run
                (args_of (mkNamespace ["a.fasta"; "b.fasta"] "reads.fastq"
                            ["out"] 4 false))
                Circularise [("A", "ACGT"); ("B", "ACGT")]) as Hno.
    { intros (r & a & r' & H). simpl in H. discriminate H. }
    split; [exact Hno|]. split; [reflexivity|].
    destruct (stages_run_in_order failing_stage_run []
                (mkNamespace ["a.fasta"; "b.fasta"] "reads.fastq" ["out"] 4
                   false)
                empty_world eq_refl) as (evs & Ht & _ & _ & _ & _ & Hlast).
    assert (evs = drop 0 (trace (main failing_stage_run [] empty_world).2))
      as Hevs by (by rewrite Ht).
    destruct (Hlast (take 16 evs) Circularise [("A", "ACGT"); ("B", "ACGT")]
                (drop 17 evs)) as [_ Hfail].
    + rewrite Hevs. reflexivity.
    + exact Hno.
    + exact Hfail.
Defined.

(** ** A run that returns *)

(** X14.  When [main] returns: the scorer, the aligner and the consensus
    builder were called on one and the same contig set, each continuing
    from the generator state the one before left, the scorer with the flag
    [circular]; [01_all_seqs.fasta] holds the records of that contig set
    and [02_consensus.fasta] the records of what [get_consensus_seq]
    returned from it, its scores and its alignments; both lie in the
    output directory. *)
Theorem returned_run_outputs (c : Collaborators) (argv : list string)
    (ns : Namespace) (w w' : World) :
  parse_args c argv = inr ns →
  main c argv w = (Ok tt, w') →
  ∃ seqs r0 scores r1 alns r2 consensus_seq,
    get_per_base_scores c seqs (ns_reads ns) (negb (ns_not_circular ns)) r0
    = (Ok scores, r1)
    ∧ get_pairwise_alignments c seqs r1 = (Ok alns, r2)
    ∧ get_consensus_seq c seqs scores alns r2 = (Ok consensus_seq, rng w')
    ∧ stat (ns_out_dir ns // "01_all_seqs.fasta") (fs w')
      = inr (RegFile (fasta_text seqs))
    ∧ stat (ns_out_dir ns // "02_consensus.fasta") (fs w')
      = inr (RegFile (fasta_text consensus_seq))
    ∧ path_is_dir (ns_out_dir ns) (fs w') = true.
Proof.
  intros Hp Hrun. rewrite (main_phases c _ _ _ Hp) in Hrun.
  unfold bind at 1 in Hrun.
  destruct (normalise_phase c (args_of ns) w) as [[seqs|e|e] w1]; try done.
  unfold output_phase in Hrun. simpl in Hrun.
  unfold bind at 1 in Hrun. rewrite save_seqs_to_fasta_run in Hrun.
  destruct (update_file _ _ (fs w1)) as [e|n1] eqn:H1; [done|].
  unfold bind at 1 in Hrun.
  destruct (call GetPerBaseScores _ _ _) as [[scores|e|e] w2] eqn:H2;
    try done.
  apply call_run in H2 as (r1 & Hs & ->). simpl in Hs.
  unfold bind at 1 in Hrun.
  destruct (call GetPairwiseAlignments _ _ _) as [[alns|e|e] w3] eqn:H3;
    try done.
  apply call_run in H3 as (r2 & Ha & ->). simpl in Ha.
  unfold bind at 1 in Hrun.
  destruct (call GetConsensusSeq _ _ _) as [[cons|e|e] w4] eqn:H4; try done.
  apply call_run in H4 as (r3 & Hc & ->). simpl in Hc.
  rewrite save_seqs_to_fasta_run in Hrun. simpl in Hrun.
  destruct (update_file _ (ns_out_dir ns // "02_consensus.fasta") n1)
    as [e|n2] eqn:H5; [done|].
  injection Hrun as <-. simpl.
  destruct (update_file_stat _ _ _ _ H1) as [old1 Hold1].
  destruct (update_file_stat _ _ _ _ H5) as [old2 Hold2].
  eexists seqs, _, scores, r1, alns, r2, cons.
  split_and!; [exact Hs|exact Ha|exact Hc| |exact Hold2|].
  - unfold path_join in *.
    rewrite (update_file_sibling (λ _, fasta_text cons) (ns_out_dir ns)
               "01_all_seqs.fasta" "02_consensus.fasta" n1 n2);
      [exact Hold1|done|exact H5].
  - unfold path_join in Hold2. by eapply stat_parent.
Qed.

Lemma returned_run_outputs_witness :
  ∃ seqs consensus_seq,
    stat ["out"; "01_all_seqs.fasta"]
      (fs (main (two_contigs false) [] empty_world).2)
    = inr (RegFile (fasta_text seqs))
    ∧ stat ["out"; "02_consensus.fasta"]
        (fs (main (two_contigs false) [] empty_world).2)
      = inr (RegFile (fasta_text consensus_seq)).
Proof.
  destruct (returned_run_outputs (two_contigs false) []
              (mkNamespace ["a.fasta"; "b.fasta"] "reads.fastq" ["out"] 4 false)
              empty_world (main (two_contigs false) [] empty_world).2 eq_refl)
    as (seqs & _ & _ & _ & _ & _ & cons & _ & _ & _ & H1 & H2 & _).
  - by vm_compute.
  - exists seqs, cons. split; [exact H1|exact H2].
Defined.
